(** * Nero Fashion storefront: search, speech controller, service wrappers

    A shallow embedding of the client-side logic of the storefront:
    - [src/components/ProductList.tsx]: the search filter [filteredProducts];
    - [src/utils/searchHighlight.tsx]: [highlightSearchTerm];
    - [src/components/ImageDescribe.tsx], [src/components/SmartProductSell.tsx]
      and the fashion-assistant modal: the text-to-speech handlers and the
      "start over" handlers;
    - [src/services/smartSellService.ts]: the multipart request builder.

    JavaScript strings are sequences of UTF-16 code units; they are modelled
    as lists of numbers.  Built-ins whose tables are not part of the
    repository ([String.prototype.toLowerCase], the case folding of the [i]
    flag) are section variables, so every theorem holds whatever the host's
    tables are. *)

From Stdlib Require Import NArith String Ascii Bool List Lia.
From stdpp Require Import base list.
Import ListNotations.

Set Default Proof Using "Type".

(** ** JavaScript strings *)

Module JS.

Local Open Scope N_scope.
Local Open Scope bool_scope.

(** A string value: its UTF-16 code units. *)
Definition jsstring : Type := list N.

(** An ASCII literal as a JavaScript string. *)
Definition lit (s : string) : jsstring :=
  List.map N_of_ascii (list_ascii_of_string s).

(** ToBoolean on strings: only the empty string is falsy. *)
Definition truthy (s : jsstring) : bool :=
  match s with
  | [] => false
  | _ :: _ => true
  end.

(** The code units removed by [String.prototype.trim]: WhiteSpace and
    LineTerminator of ECMA-262. *)
Definition isWhiteSpace (c : N) : bool :=
  let u x := N.eqb c x in
  u 9 || u 10 || u 11 || u 12 || u 13 || u 32 || u 160 || u 5760
  || (N.leb 8192 c && N.leb c 8202)
  || u 8232 || u 8233 || u 8239 || u 8287 || u 12288 || u 65279.

Fixpoint trimStart (s : jsstring) : jsstring :=
  match s with
  | [] => []
  | c :: s' => if isWhiteSpace c then trimStart s' else s
  end.

Definition trimEnd (s : jsstring) : jsstring :=
  rev (trimStart (rev s)).

(** [String.prototype.trim]. *)
Definition trim (s : jsstring) : jsstring :=
  trimEnd (trimStart s).

(** [a === b] on strings. *)
Fixpoint strictEquals (a b : jsstring) : bool :=
  match a, b with
  | [], [] => true
  | c :: a', d :: b' => N.eqb c d && strictEquals a' b'
  | _, _ => false
  end.

(** [s.startsWith(q)]. *)
Fixpoint startsWith (s q : jsstring) {struct q} : bool :=
  match q, s with
  | [], _ => true
  | _ :: _, [] => false
  | c :: q', d :: s' => N.eqb c d && startsWith s' q'
  end.

(** [s.includes(q)]: [q] occurs in [s] at some position. *)
Fixpoint includes (s q : jsstring) : bool :=
  startsWith s q ||
  match s with
  | [] => false
  | _ :: s' => includes s' q
  end.

(** The restriction of [toLowerCase] to ASCII: [A]..[Z] go to [a]..[z] and
    every other ASCII code unit is left alone.  It is used to evaluate the
    model on ASCII inputs. *)
Definition asciiLowerUnit (c : N) : N :=
  if N.leb 65 c && N.leb c 90 then c + 32 else c.

Definition asciiToLowerCase (s : jsstring) : jsstring :=
  List.map asciiLowerUnit s.

(** [q] occurs in [s] as a contiguous block. *)
Definition Substring (q s : jsstring) : Prop :=
  exists pre post, s = pre ++ q ++ post.

(** The two halves of a surrogate pair. *)
Definition isHighSurrogate (c : N) : bool :=
  N.leb 55296 c && N.leb c 56319.

Definition isLowSurrogate (c : N) : bool :=
  N.leb 56320 c && N.leb c 57343.

(** The conversion of a string to a [USVString] (Web IDL), which the
    platform applies to the string arguments of [FormData.append] and to
    the name given to [new File]: a high surrogate followed by a low one is
    kept as a pair, every other surrogate code unit is replaced by U+FFFD. *)
Fixpoint toUSVString (s : jsstring) : jsstring :=
  match s with
  | [] => []
  | c :: s' =>
      if isHighSurrogate c then
        match s' with
        | d :: s'' =>
            if isLowSurrogate d then c :: d :: toUSVString s''
            else 65533 :: toUSVString s'
        | [] => [65533]
        end
      else if isLowSurrogate c then 65533 :: toUSVString s'
      else c :: toUSVString s'
  end.

(** The normalisation [new Blob] and [new File] apply to the [type] option
    (File API): a type with a code unit outside U+0020..U+007E becomes the
    empty string, any other is put in ASCII lower case. *)
Definition normalizeType (t : jsstring) : jsstring :=
  if forallb (fun c => N.leb 32 c && N.leb c 126) t
  then asciiToLowerCase t else [].

End JS.

Import JS.

(** ** The catalogue entity ([Product] in the service types) *)

Record Product : Type := mkProduct {
  id : jsstring;
  name : jsstring;
  description : jsstring;
  picture : jsstring;
  price : jsstring;
  categories : list jsstring
}.

(** ** The search filter of [ProductList] *)

Section Search.

(** [String.prototype.toLowerCase] of the host. *)
Variable toLowerCase : jsstring -> jsstring.

(** The predicate handed to [products.filter] for a normalised [query].
    [product.categories && ...] guards against a missing array; an array,
    even an empty one, is truthy. *)
Definition productMatches (query : jsstring) (product : Product) : bool :=
  includes (toLowerCase (name product)) query
  || includes (toLowerCase (description product)) query
  || existsb (fun category => includes (toLowerCase category) query)
       (categories product).

(** [filteredProducts], the body of the [useMemo] callback. *)
Definition filteredProducts (products : list Product) (searchQuery : jsstring)
  : list Product :=
  if negb (truthy (trim searchQuery)) then products
  else
    let query := trim (toLowerCase searchQuery) in
    List.filter (productMatches query) products.

(** The claim's words: [q] is a case-insensitive substring of [s]. *)
Definition CISubstring (q s : jsstring) : Prop :=
  Substring (toLowerCase q) (toLowerCase s).

(** The claim's words: the product matches the query [q] as typed. *)
Definition MatchesQuery (q : jsstring) (p : Product) : Prop :=
  CISubstring q (name p) \/ CISubstring q (description p)
  \/ exists c, In c (categories p) /\ CISubstring q c.

(** What the code compares: the lower-cased, then trimmed query against the
    lower-cased fields. *)
Definition MatchesNormalised (q : jsstring) (p : Product) : Prop :=
  let query := trim (toLowerCase q) in
  Substring query (toLowerCase (name p))
  \/ Substring query (toLowerCase (description p))
  \/ exists c, In c (categories p) /\ Substring query (toLowerCase c).

End Search.

(** A one-product catalogue used to evaluate the filter. *)
Definition shirt : Product :=
  mkProduct (lit "OLJCESPC7Z") (lit "Shirt") (lit "Cotton tee")
    (lit "/static/img/products/shirt.jpg") (lit "19.99") [lit "clothing"].

(** Three more products, and a catalogue of four with distinct ids. *)
Definition sunglasses : Product :=
  mkProduct (lit "66VCHSJNUP") (lit "Sunglasses") (lit "Aviator shades")
    (lit "/static/img/products/sunglasses.jpg") (lit "19.99")
    [lit "accessories"].

Definition watch : Product :=
  mkProduct (lit "1YMWWN1N4O") (lit "Watch") (lit "Gold-tone dial")
    (lit "/static/img/products/watch.jpg") (lit "109.99")
    [lit "accessories"].

Definition loafers : Product :=
  mkProduct (lit "L9ECAV7KIM") (lit "Loafers") (lit "A neat pair of shoes")
    (lit "/static/img/products/loafers.jpg") (lit "89.99") [lit "footwear"].

Definition catalogue : list Product := [shirt; sunglasses; watch; loafers].

(** ** The browser's speech synthesis

    [window.speechSynthesis] as the handlers use it, after the Web Speech
    API: a queue of utterances, the [speaking] attribute (the utterance at
    the head has begun and not completed) and the [paused] attribute.  The
    numeric settings of an utterance (rate, pitch, volume) play no part in
    what follows and are left out. *)

Module SpeechSynthesis.

(** The three modal panels that speak. *)
Inductive Panel : Type := Describe | Fashion | SmartSell.

(** An utterance: its text, and the panel whose state setters its
    [onstart], [onend] and [onerror] closures call. *)
Record Utterance : Type := mkUtterance {
  text : jsstring;
  owner : Panel
}.

Record t : Type := mk {
  queue : list Utterance;
  speaking : bool;
  paused : bool
}.

Definition idle : t := mk [] false false.

(** [cancel()]: every utterance leaves the queue and speech stops; the
    paused state is kept. *)
Definition cancel (w : t) : t := mk [] false (paused w).

(** [speak(u)]: [u] joins the end of the queue. *)
Definition speak (u : Utterance) (w : t) : t :=
  mk (queue w ++ [u]) (speaking w) (paused w).

Definition pause (w : t) : t := mk (queue w) (speaking w) true.

Definition resume (w : t) : t := mk (queue w) (speaking w) false.

(** The head of the queue begins to be spoken. *)
Definition begin (w : t) : option t :=
  match queue w with
  | _ :: _ => if speaking w || paused w then None
              else Some (mk (queue w) true (paused w))
  | [] => None
  end.

(** The utterance being spoken completes or fails and leaves the queue. *)
Definition finish (w : t) : option t :=
  match queue w with
  | _ :: rest => if speaking w then Some (mk rest false (paused w)) else None
  | [] => None
  end.

End SpeechSynthesis.

(** ** The voice-over state and handlers of a panel

    [ImageDescribe], [FashionAssistant] and [SmartProductSell] each declare
    the same four pieces of state ([isPlaying], [isPaused],
    [speechSupported], [speechRef]) and the same four handlers, which differ
    in their names and in the text they speak.  The shared shape is written
    once here; each panel instantiates it below under its own names. *)

Module Voice.

Import SpeechSynthesis.

Record t : Type := mk {
  isPlaying : bool;
  isPaused : bool;
  speechSupported : bool;
  speechRef : option Utterance
}.

(** The values given to [useState] and [useRef]. *)
Definition initial : t := mk false false false None.

Definition setIsPlaying (b : bool) (v : t) : t :=
  mk b (isPaused v) (speechSupported v) (speechRef v).

Definition setIsPaused (b : bool) (v : t) : t :=
  mk (isPlaying v) b (speechSupported v) (speechRef v).

Definition setSpeechSupported (b : bool) (v : t) : t :=
  mk (isPlaying v) (isPaused v) b (speechRef v).

Definition setSpeechRef (u : option Utterance) (v : t) : t :=
  mk (isPlaying v) (isPaused v) (speechSupported v) u.

(** The mount effect: [setSpeechSupported('speechSynthesis' in window)]. *)
Definition mountEffect (inWindow : bool) (v : t) : t :=
  setSpeechSupported inWindow v.

(** The callbacks installed on every utterance. *)
Definition onstart (v : t) : t := setIsPaused false (setIsPlaying true v).
Definition onend (v : t) : t := setIsPaused false (setIsPlaying false v).
Definition onerror (v : t) : t := setIsPaused false (setIsPlaying false v).

(** [result?.description] and [result?.sell_text] as a condition: false
    when there is no result and when the text is empty. *)
Definition hasText (spoken : option jsstring) : bool :=
  match spoken with
  | Some s => truthy s
  | None => false
  end.

(** The play handler: return early when unsupported or without text;
    otherwise cancel, build the utterance, store it in [speechRef], speak. *)
Definition play (who : Panel) (spoken : option jsstring) (v : t)
    (w : SpeechSynthesis.t) : t * SpeechSynthesis.t :=
  if negb (speechSupported v) || negb (hasText spoken) then (v, w)
  else
    let w1 := cancel w in
    let utterance := mkUtterance (default [] spoken) who in
    (setSpeechRef (Some utterance) v, speak utterance w1).

Definition pause (v : t) (w : SpeechSynthesis.t) : t * SpeechSynthesis.t :=
  if negb (speechSupported v) then (v, w)
  else if speaking w && negb (paused w)
       then (setIsPaused true v, SpeechSynthesis.pause w)
       else (v, w).

Definition resume (v : t) (w : SpeechSynthesis.t) : t * SpeechSynthesis.t :=
  if negb (speechSupported v) then (v, w)
  else if paused w
       then (setIsPaused false v, SpeechSynthesis.resume w)
       else (v, w).

Definition stop (v : t) (w : SpeechSynthesis.t) : t * SpeechSynthesis.t :=
  if negb (speechSupported v) then (v, w)
  else (setIsPaused false (setIsPlaying false v), cancel w).

(** The cleanup of the unmount effect: cancel when [speechRef.current] is
    set. *)
Definition cleanup (v : t) (w : SpeechSynthesis.t) : SpeechSynthesis.t :=
  match speechRef v with
  | Some _ => cancel w
  | None => w
  end.

End Voice.

(** ** Uploaded files and the request hooks *)

Record File : Type := mkFile {
  fileName : jsstring;
  fileType : jsstring;
  fileBytes : list N
}.

(** A rejected request, as the transport reports it. *)
Record TransportError : Type := mkTransportError {
  message : jsstring
}.

Module Hook.

(** Modelled from the spec: the request hooks [useDescribe], [useFashion]
    and [useSmartSell] are imported by the panels but their files are not
    among the sources.  The spec says of them that a response payload is
    "held only in local view state, and discarded when a modal closes or
    start over is invoked", and that "a failed HTTP call surfaces a non-empty
    error message and leaves prior result state unchanged".  The fields are
    those the panels destructure: [isLoading], [error], [result]. *)
Record t (R : Type) : Type := mk {
  isLoading : bool;
  error : option jsstring;
  result : option R
}.

Arguments mk {R}.
Arguments isLoading {R}.
Arguments error {R}.
Arguments result {R}.

Definition initial {R : Type} : t R := mk false None None.

(** Modelled from the spec: [reset] discards the transient response state. *)
Definition reset {R : Type} (h : t R) : t R := initial.

(** Modelled from the spec: the text shown for a failed call.  The spec asks
    for the transport's error string and for a non-empty message; a fixed
    text stands in when the transport gives none. *)
Definition errorMessage (e : TransportError) : jsstring :=
  if truthy (message e) then message e else lit "Request failed".

(** Modelled from the spec: the hook's state once the awaited call has
    settled.  A failure is caught, its message stored in [error], and
    [result] is left as it was. *)
Definition settled {R : Type} (outcome : R + TransportError) (h : t R) : t R :=
  match outcome with
  | inl r => mk false None (Some r)
  | inr e => mk false (Some (errorMessage e)) (result h)
  end.

End Hook.

(** ** The smart-sell service wrapper ([smartSellService.ts]) *)

Module SmartSellService.

Record SmartSellRequest : Type := mkRequest {
  image : File;
  text : jsstring;
  model_name : option jsstring;
  stream : option bool
}.

Record SmartSellResponse : Type := mkResponse {
  image_id : jsstring;
  sell_text : jsstring;
  image_base64 : jsstring;
  product_id : jsstring;
  product_name : jsstring
}.

(** An entry value of a [FormData]: a file or a string. *)
Inductive FormValue : Type :=
  | FileValue (f : File)
  | StringValue (s : jsstring).

(** A [FormData]: its entries in insertion order. *)
Definition FormData : Type := list (jsstring * FormValue).

(** [FormData.append(name, value)]: the name and a string value are
    converted to [USVString]s, a [File] is stored as it is; the entry goes
    to the end of the list. *)
Definition append (key : jsstring) (value : FormValue) (fd : FormData)
  : FormData :=
  fd ++ [(toUSVString key,
          match value with
          | FileValue f => FileValue f
          | StringValue s => StringValue (toUSVString s)
          end)].

(** [getApiBaseUrl]: the relative proxy away from localhost, otherwise the
    configured base URL or the fixed development address.  [hostname] is
    [None] when there is no [window]. *)
Definition getApiBaseUrl (hostname : option jsstring)
    (VITE_API_BASE_URL : option jsstring) : jsstring :=
  match hostname with
  | Some h =>
      if negb (strictEquals h (lit "localhost"))
         && negb (strictEquals h (lit "127.0.0.1"))
      then lit "/api"
      else match VITE_API_BASE_URL with
           | Some u => if truthy u then u else lit "http://34.61.215.100:8080"
           | None => lit "http://34.61.215.100:8080"
           end
  | None =>
      match VITE_API_BASE_URL with
      | Some u => if truthy u then u else lit "http://34.61.215.100:8080"
      | None => lit "http://34.61.215.100:8080"
      end
  end.

(** [params.model_name || 'gemini-1.5-pro']. *)
Definition modelNameOrDefault (m : option jsstring) : jsstring :=
  match m with
  | Some s => if truthy s then s else lit "gemini-1.5-pro"
  | None => lit "gemini-1.5-pro"
  end.

(** [(params.stream || false).toString()]. *)
Definition streamToString (b : option bool) : jsstring :=
  match b with
  | Some true => lit "true"
  | Some false | None => lit "false"
  end.

(** The four [formData.append] calls. *)
Definition buildFormData (params : SmartSellRequest) : FormData :=
  let formData := [] in
  let formData := append (lit "image") (FileValue (image params)) formData in
  let formData := append (lit "text") (StringValue (text params)) formData in
  let formData :=
    append (lit "model_name")
      (StringValue (modelNameOrDefault (model_name params))) formData in
  let formData :=
    append (lit "stream") (StringValue (streamToString (stream params)))
      formData in
  formData.

(** What [axios.post] resolves with: the parsed body under [data]. *)
Record AxiosResponse (D : Type) : Type := mkAxiosResponse {
  data : D;
  status : N
}.

Arguments mkAxiosResponse {D}.
Arguments data {D}.
Arguments status {D}.

Definition Headers : Type := list (jsstring * jsstring).

Section Request.

(** The parsed JSON body, and [axios.post] itself: given the URL, the body
    and the headers it resolves with a response or rejects. *)
Variable D : Type.
Variable post :
  jsstring -> FormData -> Headers -> AxiosResponse D + TransportError.
Variable API_BASE_URL : jsstring.

(** [getProductRecommendation]: build the form, post it, return
    [response.data].  There is no [catch]: a rejection is passed on to the
    caller. *)
Definition getProductRecommendation (params : SmartSellRequest)
  : D + TransportError :=
  let formData := buildFormData params in
  match post (API_BASE_URL ++ lit "/sell-product-from-query") formData
          [(lit "Content-Type", lit "multipart/form-data")] with
  | inl response => inl (data response)
  | inr e => inr e
  end.

(** Modelled from the spec: [getRecommendation] of the hook [useSmartSell]
    (its file is not among the sources) awaits the service call and settles
    the view state with its outcome. *)
Definition getRecommendation (params : SmartSellRequest) (h : Hook.t D)
  : Hook.t D :=
  Hook.settled (getProductRecommendation params) h.

End Request.

End SmartSellService.

(** ** The three panels *)

Module ImageDescribe.

Import SpeechSynthesis.

Inductive DescribeType : Type := product | person.

(** The payload of the describe endpoint, by the fields the panel reads. *)
Record DescribeResponse : Type := mkResponse {
  description : jsstring;
  image_id : jsstring
}.

Record State : Type := mk {
  selectedImage : option File;
  describeType : DescribeType;
  copySuccessDescription : bool;
  copySuccessAlt : bool;
  isLoadingProductImage : bool;
  voice : Voice.t;
  hook : Hook.t DescribeResponse;
  altText : option jsstring
}.

Definition initial (defaultType : DescribeType) : State :=
  mk None defaultType false false false Voice.initial Hook.initial None.

Definition setVoice (v : Voice.t) (st : State) : State :=
  mk (selectedImage st) (describeType st) (copySuccessDescription st)
     (copySuccessAlt st) (isLoadingProductImage st) v (hook st) (altText st).

Definition setSelectedImage (f : option File) (st : State) : State :=
  mk f (describeType st) (copySuccessDescription st) (copySuccessAlt st)
     (isLoadingProductImage st) (voice st) (hook st) (altText st).

Definition setCopySuccessDescription (b : bool) (st : State) : State :=
  mk (selectedImage st) (describeType st) b (copySuccessAlt st)
     (isLoadingProductImage st) (voice st) (hook st) (altText st).

Definition setCopySuccessAlt (b : bool) (st : State) : State :=
  mk (selectedImage st) (describeType st) (copySuccessDescription st) b
     (isLoadingProductImage st) (voice st) (hook st) (altText st).

(** Modelled from the spec: [reset] of [useDescribe] discards the
    description and the alt text. *)
Definition reset (st : State) : State :=
  mk (selectedImage st) (describeType st) (copySuccessDescription st)
     (copySuccessAlt st) (isLoadingProductImage st) (voice st)
     (Hook.reset (hook st)) None.

(** Modelled from the spec: the hook's state once [describeImage] has
    settled. *)
Definition settled
    (outcome : DescribeResponse * option jsstring + TransportError)
    (st : State) : State :=
  match outcome with
  | inl (r, alt) =>
      mk (selectedImage st) (describeType st) (copySuccessDescription st)
         (copySuccessAlt st) (isLoadingProductImage st) (voice st)
         (Hook.settled (inl r) (hook st)) alt
  | inr e =>
      mk (selectedImage st) (describeType st) (copySuccessDescription st)
         (copySuccessAlt st) (isLoadingProductImage st) (voice st)
         (Hook.settled (inr e) (hook st)) (altText st)
  end.

(** [result?.description]. *)
Definition spoken (st : State) : option jsstring :=
  option_map description (Hook.result (hook st)).

Definition lift (r : Voice.t * SpeechSynthesis.t) (st : State)
  : State * SpeechSynthesis.t :=
  (setVoice (fst r) st, snd r).

Definition playDescription (st : State) (w : SpeechSynthesis.t) :=
  lift (Voice.play Describe (spoken st) (voice st) w) st.

Definition pauseDescription (st : State) (w : SpeechSynthesis.t) :=
  lift (Voice.pause (voice st) w) st.

Definition resumeDescription (st : State) (w : SpeechSynthesis.t) :=
  lift (Voice.resume (voice st) w) st.

Definition stopDescription (st : State) (w : SpeechSynthesis.t) :=
  lift (Voice.stop (voice st) w) st.

Definition handleReset (st : State) (w : SpeechSynthesis.t)
  : State * SpeechSynthesis.t :=
  let st := reset st in
  let '(st, w) := stopDescription st w in
  let st := setSelectedImage None st in
  let st := setCopySuccessDescription false st in
  let st := setCopySuccessAlt false st in
  (st, w).

End ImageDescribe.

Module FashionAssistant.

Import SpeechSynthesis.

Record FashionAssistantResponse : Type := mkResponse {
  image_id : jsstring;
  description : jsstring
}.

Record State : Type := mk {
  userImage : option File;
  copySuccess : bool;
  voice : Voice.t;
  hook : Hook.t FashionAssistantResponse
}.

Definition initial : State := mk None false Voice.initial Hook.initial.

Definition setVoice (v : Voice.t) (st : State) : State :=
  mk (userImage st) (copySuccess st) v (hook st).

Definition setUserImage (f : option File) (st : State) : State :=
  mk f (copySuccess st) (voice st) (hook st).

Definition setHook (h : Hook.t FashionAssistantResponse) (st : State) : State :=
  mk (userImage st) (copySuccess st) (voice st) h.

Definition reset (st : State) : State := setHook (Hook.reset (hook st)) st.

Definition settled (outcome : FashionAssistantResponse + TransportError)
    (st : State) : State :=
  setHook (Hook.settled outcome (hook st)) st.

Definition spoken (st : State) : option jsstring :=
  option_map description (Hook.result (hook st)).

Definition lift (r : Voice.t * SpeechSynthesis.t) (st : State)
  : State * SpeechSynthesis.t :=
  (setVoice (fst r) st, snd r).

Definition playAdvice (st : State) (w : SpeechSynthesis.t) :=
  lift (Voice.play Fashion (spoken st) (voice st) w) st.

Definition pauseAdvice (st : State) (w : SpeechSynthesis.t) :=
  lift (Voice.pause (voice st) w) st.

Definition resumeAdvice (st : State) (w : SpeechSynthesis.t) :=
  lift (Voice.resume (voice st) w) st.

Definition stopAdvice (st : State) (w : SpeechSynthesis.t) :=
  lift (Voice.stop (voice st) w) st.

Definition handleStartOver (st : State) (w : SpeechSynthesis.t)
  : State * SpeechSynthesis.t :=
  let st := reset st in
  let '(st, w) := stopAdvice st w in
  let st := setUserImage None st in
  (st, w).

End FashionAssistant.

Module SmartProductSell.

Import SpeechSynthesis.
Import SmartSellService.

Record State : Type := mk {
  userImage : option File;
  queryText : jsstring;
  copySuccess : bool;
  voice : Voice.t;
  hook : Hook.t SmartSellResponse
}.

Definition initial : State := mk None [] false Voice.initial Hook.initial.

Definition setVoice (v : Voice.t) (st : State) : State :=
  mk (userImage st) (queryText st) (copySuccess st) v (hook st).

Definition setUserImage (f : option File) (st : State) : State :=
  mk f (queryText st) (copySuccess st) (voice st) (hook st).

Definition setQueryText (q : jsstring) (st : State) : State :=
  mk (userImage st) q (copySuccess st) (voice st) (hook st).

Definition setHook (h : Hook.t SmartSellResponse) (st : State) : State :=
  mk (userImage st) (queryText st) (copySuccess st) (voice st) h.

Definition reset (st : State) : State := setHook (Hook.reset (hook st)) st.

Definition settled (outcome : SmartSellResponse + TransportError)
    (st : State) : State :=
  setHook (Hook.settled outcome (hook st)) st.

(** [result?.sell_text]. *)
Definition spoken (st : State) : option jsstring :=
  option_map sell_text (Hook.result (hook st)).

Definition lift (r : Voice.t * SpeechSynthesis.t) (st : State)
  : State * SpeechSynthesis.t :=
  (setVoice (fst r) st, snd r).

Definition playRecommendation (st : State) (w : SpeechSynthesis.t) :=
  lift (Voice.play SmartSell (spoken st) (voice st) w) st.

Definition pauseRecommendation (st : State) (w : SpeechSynthesis.t) :=
  lift (Voice.pause (voice st) w) st.

Definition resumeRecommendation (st : State) (w : SpeechSynthesis.t) :=
  lift (Voice.resume (voice st) w) st.

Definition stopRecommendation (st : State) (w : SpeechSynthesis.t) :=
  lift (Voice.stop (voice st) w) st.

Definition handleStartOver (st : State) (w : SpeechSynthesis.t)
  : State * SpeechSynthesis.t :=
  let st := reset st in
  let '(st, w) := stopRecommendation st w in
  let st := setUserImage None st in
  let st := setQueryText [] st in
  (st, w).

End SmartProductSell.

(** ** The fashion service wrapper *)

Module FashionService.

Import SmartSellService.

Section Request.

Variable D : Type.
Variable post :
  jsstring -> FormData -> Headers -> AxiosResponse D + TransportError.
Variable API_BASE_URL : jsstring.

(** [getFashionAdvice]: one [image] field, posted to the fashion endpoint;
    a rejection is passed on to the caller. *)
Definition getFashionAdvice (image : File) : D + TransportError :=
  let formData := append (lit "image") (FileValue image) [] in
  match post (API_BASE_URL ++ lit "/assistant-fashion") formData
          [(lit "Content-Type", lit "multipart/form-data")] with
  | inl response => inl (data response)
  | inr e => inr e
  end.

(** Modelled from the spec: [getFashionAdvice] of the hook [useFashion]
    (its file is not among the sources) awaits the service call and settles
    the view state with its outcome. *)
Definition getFashionAdviceHook (image : File) (h : Hook.t D) : Hook.t D :=
  Hook.settled (getFashionAdvice image) h.

End Request.

End FashionService.

(** ** The page: one browser, three panels

    The panels keep their own state and share [window.speechSynthesis].
    An event is a click on a rendered button, the mount effect of a panel,
    the closing of a panel, an input, a settled request, or the browser
    moving its queue or running a callback of an utterance it was handed. *)

Module App.

Import SpeechSynthesis.

Record World : Type := mk {
  inWindow : bool;
  synth : SpeechSynthesis.t;
  describe : ImageDescribe.State;
  fashion : FashionAssistant.State;
  smartSell : SmartProductSell.State
}.

Definition initial (inWindow : bool) (defaultType : ImageDescribe.DescribeType)
  : World :=
  mk inWindow SpeechSynthesis.idle (ImageDescribe.initial defaultType)
     FashionAssistant.initial SmartProductSell.initial.

Definition setSynth (w : SpeechSynthesis.t) (W : World) : World :=
  mk (inWindow W) w (describe W) (fashion W) (smartSell W).

Definition setDescribe (st : ImageDescribe.State) (W : World) : World :=
  mk (inWindow W) (synth W) st (fashion W) (smartSell W).

Definition setFashion (st : FashionAssistant.State) (W : World) : World :=
  mk (inWindow W) (synth W) (describe W) st (smartSell W).

Definition setSmartSell (st : SmartProductSell.State) (W : World) : World :=
  mk (inWindow W) (synth W) (describe W) (fashion W) st.

Definition voiceOf (p : Panel) (W : World) : Voice.t :=
  match p with
  | Describe => ImageDescribe.voice (describe W)
  | Fashion => FashionAssistant.voice (fashion W)
  | SmartSell => SmartProductSell.voice (smartSell W)
  end.

Definition setVoiceOf (p : Panel) (v : Voice.t) (W : World) : World :=
  match p with
  | Describe => setDescribe (ImageDescribe.setVoice v (describe W)) W
  | Fashion => setFashion (FashionAssistant.setVoice v (fashion W)) W
  | SmartSell => setSmartSell (SmartProductSell.setVoice v (smartSell W)) W
  end.

(** [!result] is false: the panel shows its result view. *)
Definition showsResult (p : Panel) (W : World) : bool :=
  match p with
  | Describe =>
      bool_decide (is_Some (Hook.result (ImageDescribe.hook (describe W))))
  | Fashion =>
      bool_decide (is_Some (Hook.result (FashionAssistant.hook (fashion W))))
  | SmartSell =>
      bool_decide (is_Some (Hook.result (SmartProductSell.hook (smartSell W))))
  end.

(** Closing a panel unmounts it: the cleanup effect runs, the panel's state
    is dropped, and the next opening starts from the initial values
    ([defaultType] is the property the describe panel is opened with). *)
Definition close (p : Panel) (defaultType : ImageDescribe.DescribeType)
    (W : World) : World :=
  let w := Voice.cleanup (voiceOf p W) (synth W) in
  match p with
  | Describe =>
      setSynth w (setDescribe (ImageDescribe.initial defaultType) W)
  | Fashion => setSynth w (setFashion FashionAssistant.initial W)
  | SmartSell => setSynth w (setSmartSell SmartProductSell.initial W)
  end.

Inductive Button : Type := Play | Pause | Resume | Stop | StartOver.

(** Which buttons the JSX renders: the voice controls sit in the result
    view under [speechSupported &&]; Play shows when [!isPlaying], otherwise
    Pause or Resume by [isPaused], and Stop. *)
Definition rendered (p : Panel) (b : Button) (W : World) : bool :=
  let v := voiceOf p W in
  showsResult p W &&
  match b with
  | Play => Voice.speechSupported v && negb (Voice.isPlaying v)
  | Pause =>
      Voice.speechSupported v && Voice.isPlaying v && negb (Voice.isPaused v)
  | Resume => Voice.speechSupported v && Voice.isPlaying v && Voice.isPaused v
  | Stop => Voice.speechSupported v && Voice.isPlaying v
  | StartOver => true
  end.

(** The [onClick] handler of each button. *)
Definition click (p : Panel) (b : Button) (W : World) : World :=
  match p with
  | Describe =>
      let r :=
        match b with
        | Play => ImageDescribe.playDescription
        | Pause => ImageDescribe.pauseDescription
        | Resume => ImageDescribe.resumeDescription
        | Stop => ImageDescribe.stopDescription
        | StartOver => ImageDescribe.handleReset
        end (describe W) (synth W) in
      setSynth (snd r) (setDescribe (fst r) W)
  | Fashion =>
      let r :=
        match b with
        | Play => FashionAssistant.playAdvice
        | Pause => FashionAssistant.pauseAdvice
        | Resume => FashionAssistant.resumeAdvice
        | Stop => FashionAssistant.stopAdvice
        | StartOver => FashionAssistant.handleStartOver
        end (fashion W) (synth W) in
      setSynth (snd r) (setFashion (fst r) W)
  | SmartSell =>
      let r :=
        match b with
        | Play => SmartProductSell.playRecommendation
        | Pause => SmartProductSell.pauseRecommendation
        | Resume => SmartProductSell.resumeRecommendation
        | Stop => SmartProductSell.stopRecommendation
        | StartOver => SmartProductSell.handleStartOver
        end (smartSell W) (synth W) in
      setSynth (snd r) (setSmartSell (fst r) W)
  end.

(** The text a panel's play handler speaks. *)
Definition spokenOf (p : Panel) (W : World) : option jsstring :=
  match p with
  | Describe => ImageDescribe.spoken (describe W)
  | Fashion => FashionAssistant.spoken (fashion W)
  | SmartSell => SmartProductSell.spoken (smartSell W)
  end.

(** What a click does to the panel's voice-over state and to the browser:
    the start-over handlers end in the panel's stop handler. *)
Definition voiceEffect (p : Panel) (b : Button) (W : World)
  : Voice.t * SpeechSynthesis.t :=
  match b with
  | Play => Voice.play p (spokenOf p W) (voiceOf p W) (synth W)
  | Pause => Voice.pause (voiceOf p W) (synth W)
  | Resume => Voice.resume (voiceOf p W) (synth W)
  | Stop | StartOver => Voice.stop (voiceOf p W) (synth W)
  end.

Inductive Callback : Type := OnStart | OnEnd | OnError.

Definition callback (c : Callback) : Voice.t -> Voice.t :=
  match c with
  | OnStart => Voice.onstart
  | OnEnd => Voice.onend
  | OnError => Voice.onerror
  end.

Inductive Event : Type :=
  | Mount (p : Panel)
  | Close (p : Panel) (defaultType : ImageDescribe.DescribeType)
  | SelectImage (p : Panel) (f : option File)
  | TypeQuery (q : jsstring)
  | DescribeSettled
      (o : ImageDescribe.DescribeResponse * option jsstring + TransportError)
  | FashionSettled
      (o : FashionAssistant.FashionAssistantResponse + TransportError)
  | SmartSellSettled
      (o : SmartSellService.SmartSellResponse + TransportError)
  | Click (p : Panel) (b : Button)
  | SynthBegin
  | SynthFinish
  | Deliver (p : Panel) (c : Callback).

(** One event; [None] when the event cannot happen in [W] (the button is
    not rendered, the queue cannot move, the panel never made an
    utterance). *)
Definition fire (e : Event) (W : World) : option World :=
  match e with
  | Mount p =>
      Some (setVoiceOf p (Voice.mountEffect (inWindow W) (voiceOf p W)) W)
  | Close p defaultType => Some (close p defaultType W)
  | SelectImage Describe f =>
      Some (setDescribe (ImageDescribe.setSelectedImage f (describe W)) W)
  | SelectImage Fashion f =>
      Some (setFashion (FashionAssistant.setUserImage f (fashion W)) W)
  | SelectImage SmartSell f =>
      Some (setSmartSell (SmartProductSell.setUserImage f (smartSell W)) W)
  | TypeQuery q =>
      Some (setSmartSell (SmartProductSell.setQueryText q (smartSell W)) W)
  | DescribeSettled o =>
      Some (setDescribe (ImageDescribe.settled o (describe W)) W)
  | FashionSettled o =>
      Some (setFashion (FashionAssistant.settled o (fashion W)) W)
  | SmartSellSettled o =>
      Some (setSmartSell (SmartProductSell.settled o (smartSell W)) W)
  | Click p b => if rendered p b W then Some (click p b W) else None
  | SynthBegin =>
      if inWindow W
      then option_map (fun w => setSynth w W)
             (SpeechSynthesis.begin (synth W))
      else None
  | SynthFinish =>
      if inWindow W
      then option_map (fun w => setSynth w W)
             (SpeechSynthesis.finish (synth W))
      else None
  | Deliver p c =>
      match Voice.speechRef (voiceOf p W) with
      | Some _ => Some (setVoiceOf p (callback c (voiceOf p W)) W)
      | None => None
      end
  end.

(** A sequence of events, from the left. *)
Fixpoint run (es : list Event) (W : World) : option World :=
  match es with
  | [] => Some W
  | e :: es' =>
      match fire e W with
      | Some W' => run es' W'
      | None => None
      end
  end.

(** The flag invariant of a panel's voice-over state. *)
Definition flagsOk (v : Voice.t) : Prop :=
  Voice.isPaused v = true -> Voice.isPlaying v = true.

(** A description that has arrived, used to evaluate the model. *)
Definition sampleDescription : ImageDescribe.DescribeResponse :=
  ImageDescribe.mkResponse (lit "A red cotton shirt") (lit "img-1").

Definition sampleSession : list Event :=
  [ Mount Describe;
    DescribeSettled (inl (sampleDescription, Some (lit "Red shirt")));
    Click Describe Play; Click Describe Play; SynthBegin;
    Deliver Describe OnStart; Click Describe Pause ].

(** The page after the description has started to be spoken. *)
Definition playingWorld : World :=
  default (initial true ImageDescribe.product)
    (run [ Mount Describe;
           DescribeSettled (inl (sampleDescription, Some (lit "Red shirt")));
           Click Describe Play; SynthBegin; Deliver Describe OnStart ]
       (initial true ImageDescribe.product)).

(** The page after that description was paused. *)
Definition pausedWorld : World :=
  default (initial true ImageDescribe.product)
    (run sampleSession (initial true ImageDescribe.product)).

(** A transport that always rejects, and one that always answers. *)
Definition offline {D : Type}
    (url : jsstring) (body : SmartSellService.FormData)
    (headers : SmartSellService.Headers)
  : SmartSellService.AxiosResponse D + TransportError :=
  inr (mkTransportError (lit "Network Error")).

Definition answering {D : Type} (d : D)
    (url : jsstring) (body : SmartSellService.FormData)
    (headers : SmartSellService.Headers)
  : SmartSellService.AxiosResponse D + TransportError :=
  inl (SmartSellService.mkAxiosResponse d 200%N).

Definition samplePhoto : File :=
  mkFile (lit "me.jpg") (lit "image/jpeg") [255%N; 216%N; 255%N].

Definition sampleRequest : SmartSellService.SmartSellRequest :=
  SmartSellService.mkRequest samplePhoto (lit "sunglasses for summer")
    None None.

Definition sampleRecommendation : SmartSellService.SmartSellResponse :=
  SmartSellService.mkResponse (lit "img-7") (lit "These suit you")
    (lit "aGVsbG8=") (lit "OLJCESPC7Z") (lit "Sunglasses").

End App.

(** ** Regular expressions, as far as [highlightSearchTerm] needs them

    [new RegExp(`(${searchTerm})`, 'gi')] hands a string typed by the user
    to the pattern parser.  The model covers a fragment of the pattern
    language: pattern characters, [.], [^], [$], capturing groups and
    alternation.  A pattern that uses anything else (a quantifier applied to
    a term, a backslash, a bracket, a brace, a group that starts with [(?])
    is reported as [Outside] the fragment, and nothing is said about it.
    Within the fragment the parser raises the early errors of ECMA-262 and
    the matcher is its backtracking matcher. *)

Module RegExp.

Local Open Scope N_scope.

Inductive Regex : Type :=
  | Empty
  | Char (c : N)
  | Dot
  | AssertStart
  | AssertEnd
  | Seq (r1 r2 : Regex)
  | Alt (r1 r2 : Regex)
  | Group (index : nat) (r : Regex).

Inductive Parse (A : Type) : Type :=
  | Parsed (a : A)
  | SyntaxError
  | Outside.

Arguments Parsed {A}.
Arguments SyntaxError {A}.
Arguments Outside {A}.

(** What stands before the cursor: nothing that could be repeated (the
    start of an alternative, or an assertion), or an atom. *)
Inductive Last : Type := NoTerm | Atom.

(** An open group (or the whole pattern, [index] 0) while it is parsed: the
    alternatives completed so far and the terms of the current one, both
    newest first. *)
Record Frame : Type := mkFrame {
  index : nat;
  alts : list Regex;
  terms : list Regex;
  last : Last
}.

Definition seqOf (ts : list Regex) : Regex :=
  match ts with
  | [] => Empty
  | t :: ts' => fold_left Seq ts' t
  end.

(** The alternative being parsed, in source order. *)
Definition alternative (f : Frame) : Regex := seqOf (rev (terms f)).

(** The disjunction of a frame: its alternatives, the first one tried
    first. *)
Definition disjunction (f : Frame) : Regex :=
  fold_left (fun later earlier => Alt earlier later) (alts f) (alternative f).

Definition pushTerm (t : Regex) (l : Last) (f : Frame) : Frame :=
  mkFrame (index f) (alts f) (t :: terms f) l.

(** A quantifier character ([*], [+], [?]) at the cursor: with nothing to
    repeat it is an early error; after an atom it is a quantifier, which the
    fragment leaves out. *)
Definition quantifier {A : Type} (f : Frame) : Parse A :=
  match last f with
  | NoTerm => SyntaxError
  | Atom => Outside
  end.

(** The parser: one code unit at a time over a stack of open groups, the
    innermost first.  [next] is the index of the next capturing group.  It
    returns the pattern and its number of capturing groups. *)
Fixpoint parseFrom (s : jsstring) (top : Frame) (stack : list Frame)
    (next : nat) {struct s} : Parse (Regex * nat) :=
  match s with
  | [] =>
      match stack with
      | [] => Parsed (disjunction top, Nat.pred next)
      | _ :: _ => SyntaxError
      end
  | c :: s' =>
      if N.eqb c 40 then
        match s' with
        | 63 :: _ => Outside
        | _ => parseFrom s' (mkFrame next [] [] NoTerm) (top :: stack) (S next)
        end
      else if N.eqb c 41 then
        match stack with
        | [] => SyntaxError
        | parent :: stack' =>
            parseFrom s'
              (pushTerm (Group (index top) (disjunction top)) Atom parent)
              stack' next
        end
      else if N.eqb c 124 then
        parseFrom s'
          (mkFrame (index top) (alternative top :: alts top) [] NoTerm)
          stack next
      else if N.eqb c 42 || N.eqb c 43 || N.eqb c 63 then quantifier top
      else if N.eqb c 46 then parseFrom s' (pushTerm Dot Atom top) stack next
      else if N.eqb c 94 then
        parseFrom s' (pushTerm AssertStart NoTerm top) stack next
      else if N.eqb c 36 then
        parseFrom s' (pushTerm AssertEnd NoTerm top) stack next
      else if N.eqb c 92 || N.eqb c 91 || N.eqb c 93 || N.eqb c 123
              || N.eqb c 125 then Outside
      else parseFrom s' (pushTerm (Char c) Atom top) stack next
  end.

Definition parsePattern (source : jsstring) : Parse (Regex * nat) :=
  parseFrom source (mkFrame 0 [] [] NoTerm) [] 1.

(** A regular expression object: the compiled pattern, the number of its
    capturing groups, its flags and [lastIndex]. *)
Record t : Type := mk {
  pattern : Regex;
  nGroups : nat;
  global : bool;
  ignoreCase : bool;
  sticky : bool;
  lastIndex : nat
}.

Definition setLastIndex (i : nat) (re : t) : t :=
  mk (pattern re) (nGroups re) (global re) (ignoreCase re) (sticky re) i.

(** Does the flags string contain the flag? *)
Definition hasFlag (flag : N) (flags : jsstring) : bool :=
  existsb (N.eqb flag) flags.

(** [new RegExp(source, flags)] for flags among [g], [i], [y]. *)
Definition create (source flags : jsstring) : Parse t :=
  match parsePattern source with
  | Parsed (r, n) =>
      Parsed (mk r n (hasFlag 103 flags) (hasFlag 105 flags)
                (hasFlag 121 flags) 0)
  | SyntaxError => SyntaxError
  | Outside => Outside
  end.

(** The state of a match: the index reached, the input from there on, and
    the captures as (start, end) pairs. *)
Record MatchState : Type := mkState {
  endIndex : nat;
  remaining : jsstring;
  captures : list (option (nat * nat))
}.

Definition Continuation : Type := MatchState -> option MatchState.

Definition setCapture (i : nat) (v : option (nat * nat))
    (caps : list (option (nat * nat))) : list (option (nat * nat)) :=
  <[Nat.pred i := v]> caps.

Definition isLineTerminator (c : N) : bool :=
  N.eqb c 10 || N.eqb c 13 || N.eqb c 8232 || N.eqb c 8233.

Section Matching.

(** Canonicalize of the [i] flag, on one code unit. *)
Variable Canonicalize : N -> N.

(** The matcher a pattern compiles to, forward direction. *)
Fixpoint matcher (ignoreCase : bool) (r : Regex) (x : MatchState)
    (c : Continuation) {struct r} : option MatchState :=
  match r with
  | Empty => c x
  | Char ch =>
      match remaining x with
      | d :: rest =>
          if (if ignoreCase then N.eqb (Canonicalize ch) (Canonicalize d)
              else N.eqb ch d)
          then c (mkState (S (endIndex x)) rest (captures x))
          else None
      | [] => None
      end
  | Dot =>
      match remaining x with
      | d :: rest =>
          if isLineTerminator d then None
          else c (mkState (S (endIndex x)) rest (captures x))
      | [] => None
      end
  | AssertStart => if Nat.eqb (endIndex x) 0 then c x else None
  | AssertEnd =>
      match remaining x with
      | [] => c x
      | _ :: _ => None
      end
  | Seq r1 r2 =>
      matcher ignoreCase r1 x (fun y => matcher ignoreCase r2 y c)
  | Alt r1 r2 =>
      match matcher ignoreCase r1 x c with
      | Some z => Some z
      | None => matcher ignoreCase r2 x c
      end
  | Group i r' =>
      matcher ignoreCase r' x (fun y =>
        c (mkState (endIndex y) (remaining y)
             (setCapture i (Some (endIndex x, endIndex y)) (captures y))))
  end.

(** One attempt of the pattern at index [i], where [rest] is the input from
    [i] on. *)
Definition matchAt (re : t) (i : nat) (rest : jsstring) : option MatchState :=
  matcher (ignoreCase re) (pattern re)
    (mkState i rest (replicate (nGroups re) None)) Some.

(** The first index from [i] on at which the pattern matches. *)
Fixpoint search (re : t) (i : nat) (rest : jsstring) {struct rest}
  : option MatchState :=
  match matchAt re i rest with
  | Some y => Some y
  | None =>
      match rest with
      | [] => None
      | _ :: rest' => search re (S i) rest'
      end
  end.

(** RegExpBuiltinExec: the match found, if any, and the object with its
    [lastIndex] updated. *)
Definition exec (re : t) (S : jsstring) : option MatchState * t :=
  let tracked := global re || sticky re in
  let start := if tracked then lastIndex re else 0%nat in
  if Nat.ltb (length S) start then
    (None, if tracked then setLastIndex 0 re else re)
  else
    match (if sticky re then matchAt re start (drop start S)
           else search re start (drop start S)) with
    | Some y => (Some y, if tracked then setLastIndex (endIndex y) re else re)
    | None => (None, if tracked then setLastIndex 0 re else re)
    end.

(** [re.test(S)]. *)
Definition test (re : t) (S : jsstring) : bool * t :=
  let '(m, re') := exec re S in (bool_decide (is_Some m), re').

(** [S.substring(from, to)] for [from <= to]. *)
Definition substring (S : jsstring) (from to : nat) : jsstring :=
  take (to - from) (drop from S).

(** The captures of a match as the entries of the match array: the
    captured text, or [undefined] for a group that took no part. *)
Definition captured (S : jsstring) (y : MatchState)
  : list (option jsstring) :=
  List.map (option_map (fun se => substring S (fst se) (snd se)))
    (captures y).

(** The loop of [RegExp.prototype[Symbol.split]] on a non-empty [S], with
    the sticky copy [splitter] of the pattern: [p] is the end of the last
    separator, [q] the index tried next.  [None] when [fuel] rounds were
    not enough. *)
Fixpoint splitLoop (splitter : t) (S : jsstring) (fuel p q : nat)
    {struct fuel} : option (list (option jsstring)) :=
  match fuel with
  | O => None
  | Datatypes.S fuel' =>
      if Nat.ltb q (length S) then
        match fst (exec (setLastIndex q splitter) S) with
        | None => splitLoop splitter S fuel' p (Datatypes.S q)
        | Some z =>
            let e := Nat.min (endIndex z) (length S) in
            if Nat.eqb e p then splitLoop splitter S fuel' p (Datatypes.S q)
            else
              option_map
                (fun A => Some (substring S p q) :: captured S z ++ A)
                (splitLoop splitter S fuel' e e)
        end
      else Some [Some (substring S p (length S))]
  end.

(** [S.split(re)] without a limit.  Two rounds of the loop at most pass
    before [q] grows, so twice the size and two rounds are given. *)
Definition split (re : t) (S : jsstring) : option (list (option jsstring)) :=
  let splitter :=
    mk (pattern re) (nGroups re) (global re) (ignoreCase re) true 0 in
  match S with
  | [] =>
      match fst (exec splitter S) with
      | Some _ => Some []
      | None => Some [Some S]
      end
  | _ :: _ => splitLoop splitter S (2 * length S + 2) 0 0
  end.

End Matching.

(** A code unit that stands for itself in a pattern of the fragment: not a
    syntax character and not one of the characters left outside. *)
Definition plainUnit (c : N) : bool :=
  negb (N.eqb c 40 || N.eqb c 41 || N.eqb c 124 || N.eqb c 42 || N.eqb c 43
        || N.eqb c 63 || N.eqb c 46 || N.eqb c 94 || N.eqb c 36
        || N.eqb c 92 || N.eqb c 91 || N.eqb c 93 || N.eqb c 123
        || N.eqb c 125).

(** [rest] begins with [term] up to the given case folding; the input after
    that prefix. *)
Fixpoint foldedPrefix (fold : N -> N) (term rest : jsstring)
  : option jsstring :=
  match term, rest with
  | [], _ => Some rest
  | _ :: _, [] => None
  | c :: term', d :: rest' =>
      if N.eqb (fold c) (fold d) then foldedPrefix fold term' rest' else None
  end.

(** The case folding of the [i] flag on ASCII: [a]..[z] go to [A]..[Z]. *)
Definition asciiCanonicalize (c : N) : N :=
  if N.leb 97 c && N.leb c 122 then c - 32 else c.

End RegExp.

(** ** [highlightSearchTerm] *)

Module SearchHighlight.

Import RegExp.

(** An element of the returned array: the part as it is, or the part inside
    a [mark] element keyed by its index.  A part is [None] when it is
    [undefined]. *)
Inductive Node : Type :=
  | Plain (part : option jsstring)
  | Mark (key : nat) (part : option jsstring).

(** What the function evaluates to: the text itself, or the array. *)
Inductive ReactNode : Type :=
  | Text (text : jsstring)
  | Nodes (nodes : list Node).

(** How a call ends: it returns, it throws the constructor's SyntaxError,
    or it leaves the model (the pattern is outside the fragment, or the
    split loop was cut short). *)
Inductive Completion : Type :=
  | Return (v : ReactNode)
  | Throw
  | Unmodelled.

(** ToString of a part handed to [regex.test]. *)
Definition toString (part : option jsstring) : jsstring :=
  match part with
  | Some s => s
  | None => lit "undefined"
  end.

Section Highlight.

Variable Canonicalize : N -> N.

(** [parts.map((part, index) => regex.test(part) ? <mark>... : part)]; the
    [g] flag makes [test] carry [lastIndex] from one part to the next. *)
Fixpoint mapParts (regex : RegExp.t) (parts : list (option jsstring))
    (index : nat) : list Node :=
  match parts with
  | [] => []
  | part :: parts' =>
      let '(found, regex') := test Canonicalize regex (toString part) in
      (if found then Mark index part else Plain part)
      :: mapParts regex' parts' (S index)
  end.

Definition highlightSearchTerm (text searchTerm : jsstring) : Completion :=
  if negb (truthy (trim searchTerm)) then Return (Text text)
  else
    match create (lit "(" ++ searchTerm ++ lit ")") (lit "gi") with
    | SyntaxError => Throw
    | Outside => Unmodelled
    | Parsed regex =>
        match split Canonicalize regex text with
        | Some parts => Return (Nodes (mapParts regex parts 0))
        | None => Unmodelled
        end
    end.

End Highlight.

(** The text of a node; React renders [undefined] as nothing. *)
Definition nodeText (n : Node) : jsstring :=
  match n with
  | Plain part | Mark _ part => default [] part
  end.

(** The text the returned value shows. *)
Definition shownText (v : ReactNode) : jsstring :=
  match v with
  | Text text => text
  | Nodes nodes => concat (List.map nodeText nodes)
  end.

End SearchHighlight.

(** ** What [ProductList] renders *)

Module ProductListView.



Section Render.

Variable toLowerCase : jsstring -> jsstring.


End Render.



End ProductListView.

(** ** The submit handlers of the panels and the product image loader *)

Module Handlers.

(** What a submit handler does: it alerts and returns, or it calls the
    hook's request function with the parameters it built. *)
Inductive Submitted (P : Type) : Type :=
  | Alerted (message : jsstring)
  | Sent (params : P).

Arguments Alerted {P}.
Arguments Sent {P}.

(** The argument of [describeImage]. *)
Record DescribeRequest : Type := mkDescribeRequest {
  image : File;
  type_prompt : ImageDescribe.DescribeType
}.

(** [handleDescribe] of [ImageDescribe]. *)
Definition handleDescribe (st : ImageDescribe.State)
  : Submitted DescribeRequest :=
  match ImageDescribe.selectedImage st with
  | None => Alerted (lit "Please select an image first")
  | Some selectedImage =>
      Sent (mkDescribeRequest selectedImage (ImageDescribe.describeType st))
  end.

(** [disabled={!selectedImage}] on the describe button. *)
Definition describeDisabled (st : ImageDescribe.State) : bool :=
  negb (bool_decide (is_Some (ImageDescribe.selectedImage st))).

(** [handleGetAdvice] of the fashion panel; the parameter object holds the
    image only. *)
Definition handleGetAdvice (st : FashionAssistant.State) : Submitted File :=
  match FashionAssistant.userImage st with
  | None =>
      Alerted
        (lit "Please upload a photo of yourself wearing the product first")
  | Some userImage => Sent userImage
  end.

(** [disabled={!userImage}] on the analyse button. *)
Definition adviceDisabled (st : FashionAssistant.State) : bool :=
  negb (bool_decide (is_Some (FashionAssistant.userImage st))).

(** [handleGetRecommendation] of [SmartProductSell]. *)
Definition handleGetRecommendation (st : SmartProductSell.State)
  : Submitted SmartSellService.SmartSellRequest :=
  match SmartProductSell.userImage st with
  | None => Alerted (lit "Please upload a photo of yourself first")
  | Some userImage =>
      if negb (truthy (trim (SmartProductSell.queryText st)))
      then Alerted (lit "Please describe what you are looking for")
      else
        Sent (SmartSellService.mkRequest userImage
                (trim (SmartProductSell.queryText st))
                (Some (lit "gemini-1.5-pro")) (Some false))
  end.

(** [disabled={!userImage || !queryText.trim()}] on the find button. *)
Definition recommendationDisabled (st : SmartProductSell.State) : bool :=
  negb (bool_decide (is_Some (SmartProductSell.userImage st)))
  || negb (truthy (trim (SmartProductSell.queryText st))).

(** [s.replace(/\s+/g, '-')]: every maximal run of whitespace becomes one
    hyphen.  [inRun] tells that the code unit before was whitespace. *)
Fixpoint replaceWhitespaceRuns (inRun : bool) (s : jsstring) : jsstring :=
  match s with
  | [] => []
  | c :: s' =>
      if isWhiteSpace c then
        if inRun then replaceWhitespaceRuns true s'
        else 45%N :: replaceWhitespaceRuns true s'
      else c :: replaceWhitespaceRuns false s'
  end.

(** What [response.blob()] resolves with. *)
Record Blob : Type := mkBlob {
  blobBytes : list N;
  blobType : jsstring
}.

(** What [fetch] resolves with: the [ok] flag, and the body as [blob()]
    gives it or fails to. *)
Record FetchResponse : Type := mkFetchResponse {
  ok : bool;
  blob : Blob + TransportError
}.

Definition setIsLoadingProductImage (b : bool) (st : ImageDescribe.State)
  : ImageDescribe.State :=
  ImageDescribe.mk (ImageDescribe.selectedImage st)
    (ImageDescribe.describeType st) (ImageDescribe.copySuccessDescription st)
    (ImageDescribe.copySuccessAlt st) b (ImageDescribe.voice st)
    (ImageDescribe.hook st) (ImageDescribe.altText st).

Section ProductImage.

Variable toLowerCase : jsstring -> jsstring.

(** [fetch], and [window.location.origin]. *)
Variable fetch : jsstring -> FetchResponse + TransportError.
Variable origin : jsstring.

(** The URL fetched: the picture's own when it starts with ["http"],
    otherwise the origin followed by it. *)
Definition fullImageUrl (imageUrl : jsstring) : jsstring :=
  if startsWith imageUrl (lit "http") then imageUrl else origin ++ imageUrl.

(** The [filename] template string. *)
Definition fileNameFor (productName : jsstring) : jsstring :=
  replaceWhitespaceRuns false (toLowerCase productName) ++ lit ".jpg".

(** [new File([blob], filename, { type })]: the blob's bytes, the name as a
    [USVString], and the type normalised as the File API says. *)
Definition newFile (b : Blob) (filename type : jsstring) : File :=
  mkFile (toUSVString filename) (normalizeType type) (blobBytes b).

(** The [try] block of [loadProductImage]: the file, or the message of what
    was thrown. *)
Definition tryLoad (imageUrl productName : jsstring) : File + jsstring :=
  match fetch (fullImageUrl imageUrl) with
  | inr e => inr (message e)
  | inl response =>
      if negb (ok response) then inr (lit "Failed to load product image")
      else
        match blob response with
        | inr e => inr (message e)
        | inl b =>
            inl (newFile b (fileNameFor productName) (blobType b))
        end
  end.

(** [loadProductImage]: the loading flag is raised, the [try] block runs,
    anything thrown is replaced by one fixed error, and the flag is lowered
    in [finally]. *)
Definition loadProductImage (imageUrl productName : jsstring)
    (st : ImageDescribe.State) : (File + jsstring) * ImageDescribe.State :=
  let st := setIsLoadingProductImage true st in
  let outcome :=
    match tryLoad imageUrl productName with
    | inl file => inl file
    | inr _ => inr (lit "Could not load product image")
    end in
  (outcome, setIsLoadingProductImage false st).

(** The effect that loads the product's picture when the panel is opened
    for a product: the file is selected on success, a failure is only
    logged. *)
Definition productImageEffect (product : option Product)
    (st : ImageDescribe.State) : ImageDescribe.State :=
  match product, ImageDescribe.describeType st with
  | Some p, ImageDescribe.product =>
      let '(outcome, st) := loadProductImage (picture p) (name p) st in
      match outcome with
      | inl file => ImageDescribe.setSelectedImage (Some file) st
      | inr _ => st
      end
  | _, _ => st
  end.

End ProductImage.

(** A server that answers every request with a small JPEG, and one that
    answers 404. *)
Definition servesJpeg (url : jsstring) : FetchResponse + TransportError :=
  inl (mkFetchResponse true
         (inl (mkBlob [255%N; 216%N; 255%N] (lit "image/jpeg")))).

Definition notFound (url : jsstring) : FetchResponse + TransportError :=
  inl (mkFetchResponse false (inl (mkBlob [] (lit "text/html")))).

(** A smart-sell panel with a photo and a query typed with blanks around
    it. *)
Definition readyToFind : SmartProductSell.State :=
  SmartProductSell.setQueryText (lit "  sunglasses for summer ")
    (SmartProductSell.setUserImage (Some App.samplePhoto)
       SmartProductSell.initial).

End Handlers.

(** ** Two conditions on the page *)

Module PageConditions.

Import SpeechSynthesis App.

(** The utterance [u] has something to say and is the one its panel's
    [speechRef] holds. *)
Definition owned (W : World) (u : Utterance) : Prop :=
  truthy (text u) = true
  /\ Voice.speechRef (voiceOf (owner u) W) = Some u.


(** While the browser is speaking, the utterance being spoken is at the
    head of the queue. *)
Definition speakingHead (W : World) : Prop :=
  speaking (synth W) = true -> exists u rest, queue (synth W) = u :: rest.

End PageConditions.


(** ** What a correct highlight looks like *)

Module Highlighting.

Import RegExp SearchHighlight.

(** [term] occurs in [s] at some index, up to the case folding. *)
Fixpoint occurs (fold : N -> N) (term s : jsstring) : bool :=
  bool_decide (is_Some (foldedPrefix fold term s))
  || match s with
     | [] => false
     | _ :: s' => occurs fold term s'
     end.

(** Nodes numbered from [index] on that alternate between unmarked text in
    which [term] does not occur and marked text that is [term] up to the
    case folding, beginning and ending with unmarked text; the key of a mark
    is its position in the array. *)
Inductive Highlighted (fold : N -> N) (term : jsstring)
  : nat -> list Node -> Prop :=
  | highlighted_last (index : nat) (gap : jsstring) :
      occurs fold term gap = false ->
      Highlighted fold term index [Plain (Some gap)]
  | highlighted_more (index : nat) (gap hit : jsstring) (rest : list Node) :
      occurs fold term gap = false ->
      foldedPrefix fold term hit = Some [] ->
      Highlighted fold term (S (S index)) rest ->
      Highlighted fold term index
        (Plain (Some gap) :: Mark (S index) (Some hit) :: rest).

End Highlighting.

(** A session in which the utterance leaves the queue while it is paused:
    the description is played and paused, then the browser drops the
    utterance before any of its callbacks has run. *)
Definition endsWhilePaused : list App.Event :=
  App.sampleSession ++ [App.SynthFinish].

Definition endedWhilePaused : App.World :=
  default (App.initial true ImageDescribe.product)
    (App.run endsWhilePaused (App.initial true ImageDescribe.product)).

(** The claim's words: an utterance is paused. *)
Definition UtterancePaused (w : SpeechSynthesis.t) : Prop :=
  SpeechSynthesis.paused w = true
  /\ exists u, In u (SpeechSynthesis.queue w).

(** A transport that answers with the form it was sent. *)
Definition echo (url : jsstring) (body : SmartSellService.FormData)
    (headers : SmartSellService.Headers)
  : SmartSellService.AxiosResponse SmartSellService.FormData + TransportError :=
  inl (SmartSellService.mkAxiosResponse body 200%N).

(** A request that names a model and asks for streaming, and whose text
    ends in a high surrogate with no low surrogate after it. *)
Definition explicitRequest : SmartSellService.SmartSellRequest :=
  SmartSellService.mkRequest App.samplePhoto (lit "shades " ++ [55357%N])
    (Some (lit "gemini-2.0-flash")) (Some true).

(** A describe panel that already shows a file the user picked. *)
Definition pickedPhoto : ImageDescribe.State :=
  ImageDescribe.setSelectedImage (Some App.samplePhoto)
    (ImageDescribe.initial ImageDescribe.product).

(** * Properties *)

(** ** Conversion to [USVString] *)

Section USVStringFacts.

Local Open Scope N_scope.

(** The conversion never empties a string. *)
Lemma toUSVString_truthy (s : jsstring) :
  truthy (toUSVString s) = truthy s.
Proof.
  destruct s as [|c s]; [reflexivity|]. cbn [toUSVString truthy].
  destruct (isHighSurrogate c).
  - destruct s as [|d s]; [reflexivity|].
    destruct (isLowSurrogate d); reflexivity.
  - destruct (isLowSurrogate c); reflexivity.
Qed.

(** An induction principle that follows the recursion of [toUSVString]. *)
Lemma jsstring_pair_ind (P : jsstring -> Prop) :
  P [] ->
  (forall c, P [c]) ->
  (forall c d s, P s -> P (d :: s) -> P (c :: d :: s)) ->
  forall s, P s.
Proof.
  intros H0 H1 H2.
  assert (H : forall s, P s /\ forall c, P (c :: s)).
  { induction s as [|d s [IH1 IH2]].
    - split; [exact H0 | exact H1].
    - split; [apply IH2|]. intros c. apply H2; [exact IH1 | apply IH2]. }
  intros s. apply H.
Qed.

(** A string without surrogate code units is a [USVString] already. *)
Lemma toUSVString_no_surrogates (s : jsstring) :
  forallb (fun c => negb (isHighSurrogate c) && negb (isLowSurrogate c)) s
  = true ->
  toUSVString s = s.
Proof.
  induction s as [|c s IH]; [reflexivity|].
  cbn [forallb toUSVString]. rewrite !andb_true_iff, !negb_true_iff.
  intros [[Hh Hl] Hs]. rewrite Hh, Hl, (IH Hs). reflexivity.
Qed.

(** The conversion goes through a concatenation whose right part does not
    begin with a low surrogate. *)
Lemma toUSVString_app (s t : jsstring) :
  match t with
  | d :: _ => isLowSurrogate d = false
  | [] => True
  end ->
  toUSVString (s ++ t) = toUSVString s ++ toUSVString t.
Proof.
  intros Ht. induction s as [| c | c d s IH1 IH2] using jsstring_pair_ind.
  - reflexivity.
  - cbn [app toUSVString]. destruct (isHighSurrogate c).
    + destruct t as [|d t]; [reflexivity|]. rewrite Ht. reflexivity.
    + destruct (isLowSurrogate c); reflexivity.
  - change ((c :: d :: s) ++ t) with (c :: (d :: s) ++ t).
    change ((d :: s) ++ t) with (d :: s ++ t) in *.
    cbn [toUSVString] in *.
    destruct (isHighSurrogate c).
    + destruct (isLowSurrogate d).
      * rewrite IH1. reflexivity.
      * cbn [toUSVString] in IH2. rewrite IH2. reflexivity.
    + destruct (isLowSurrogate c); cbn [toUSVString] in IH2;
        rewrite IH2; reflexivity.
Qed.

Lemma toUSVString_cons2 (c d : N) (s : jsstring) :
  toUSVString (c :: d :: s)
  = if isHighSurrogate c then
      if isLowSurrogate d then c :: d :: toUSVString s
      else 65533 :: toUSVString (d :: s)
    else if isLowSurrogate c then 65533 :: toUSVString (d :: s)
    else c :: toUSVString (d :: s).
Proof. reflexivity. Qed.

(** The conversion brings in no whitespace. *)
Lemma toUSVString_clean (s : jsstring) :
  forallb (fun c => negb (isWhiteSpace c)) s = true ->
  forallb (fun c => negb (isWhiteSpace c)) (toUSVString s) = true.
Proof.
  induction s as [| c | c d s IH1 IH2] using jsstring_pair_ind.
  - reflexivity.
  - cbn [toUSVString forallb].
    destruct (isHighSurrogate c); [reflexivity|].
    destruct (isLowSurrogate c); [reflexivity|]. exact (fun H => H).
  - intros H. cbn [forallb] in H.
    apply andb_true_iff in H as [Hc H]. pose proof H as Hds.
    apply andb_true_iff in H as [Hd Hs].
    specialize (IH1 Hs).
    assert (IH2' : forallb (fun c => negb (isWhiteSpace c))
                     (toUSVString (d :: s)) = true).
    { apply IH2. cbn [forallb]. rewrite Hd, Hs. reflexivity. }
    clear IH2. rewrite toUSVString_cons2.
    destruct (isHighSurrogate c).
    + destruct (isLowSurrogate d).
      * cbn [forallb]. rewrite Hc, Hd, IH1. reflexivity.
      * cbn [forallb]. rewrite IH2'. reflexivity.
    + destruct (isLowSurrogate c); cbn [forallb];
        rewrite ?Hc, IH2'; reflexivity.
Qed.

End USVStringFacts.

(** ** Facts about the string primitives *)

Lemma startsWith_spec (s q : jsstring) :
  startsWith s q = true <-> exists post, s = q ++ post.
Proof.
  revert s; induction q as [|c q IH]; intros s; simpl.
  - split; [intros _; exists s; reflexivity | reflexivity].
  - destruct s as [|d s].
    + split; [discriminate | intros [post H]; discriminate].
    + rewrite andb_true_iff, N.eqb_eq, IH. split.
      * intros [-> [post ->]]. exists post. reflexivity.
      * intros [post H]. injection H as -> ->. split; [reflexivity | eauto].
Qed.

Lemma includes_spec (s q : jsstring) :
  includes s q = true <-> Substring q s.
Proof.
  unfold Substring. induction s as [|d s IH].
  - simpl. rewrite orb_false_r, startsWith_spec. split.
    + intros [post H]. exists [], post. exact H.
    + intros [pre [post H]]. destruct pre as [|x pre]; [|discriminate].
      exists post. exact H.
  - cbn [includes]. rewrite orb_true_iff, startsWith_spec, IH. split.
    + intros [[post H] | [pre [post H]]].
      * exists [], post. exact H.
      * exists (d :: pre), post. simpl. rewrite H. reflexivity.
    + intros [pre [post H]]. destruct pre as [|x pre].
      * left. exists post. exact H.
      * right. injection H as _ H. exists pre, post. exact H.
Qed.

Lemma trimStart_whitespace (s : jsstring) :
  Forall (fun c => isWhiteSpace c = true) s -> trimStart s = [].
Proof.
  induction 1 as [|c s Hc _ IH]; simpl; [reflexivity|].
  rewrite Hc. exact IH.
Qed.

Lemma trim_whitespace (s : jsstring) :
  Forall (fun c => isWhiteSpace c = true) s -> trim s = [].
Proof.
  intros H. unfold trim, trimEnd. rewrite (trimStart_whitespace s H).
  reflexivity.
Qed.

Lemma productMatches_spec toLowerCase (q : jsstring) (p : Product) :
  productMatches toLowerCase (trim (toLowerCase q)) p = true
  <-> MatchesNormalised toLowerCase q p.
Proof.
  unfold productMatches, MatchesNormalised.
  rewrite !orb_true_iff, !includes_spec, existsb_exists.
  split.
  - intros [[H | H] | [c [Hin H]]]; [tauto | tauto |].
    right; right. exists c. rewrite <- includes_spec. tauto.
  - intros [H | [H | [c [Hin H]]]]; [tauto | tauto |].
    right. exists c. rewrite includes_spec. tauto.
Qed.

Lemma filter_sublist_of {A} (f : A -> bool) (l : list A) :
  sublist (List.filter f l) l.
Proof.
  induction l as [|x l IH]; simpl.
  - constructor.
  - destruct (f x); [apply sublist_skip | apply sublist_cons]; exact IH.
Qed.

(** ** The search filter *)

Section SearchFacts.

Variable toLowerCase : jsstring -> jsstring.

Lemma filteredProducts_query (products : list Product) (q : jsstring) :
  truthy (trim q) = true ->
  filteredProducts toLowerCase products q
  = List.filter (productMatches toLowerCase (trim (toLowerCase q))) products.
Proof.
  intros H. unfold filteredProducts. rewrite H. reflexivity.
Qed.

(** C1, as amended: for a query whose trimmed form is non-empty, a product
    is in the output of the search filter if and only if it is in the
    product list and the query, lower-cased and then trimmed, is a substring
    of its lower-cased name, of its lower-cased description, or of at least
    one of its lower-cased category labels. *)
Theorem filteredProducts_exact (products : list Product) (q : jsstring) :
  truthy (trim q) = true ->
  forall p,
    In p (filteredProducts toLowerCase products q)
    <-> In p products /\ MatchesNormalised toLowerCase q p.
Proof.
  intros H p. rewrite (filteredProducts_query products q H).
  rewrite filter_In, productMatches_spec. reflexivity.
Qed.

(** When trimming leaves the lower-cased query as it is, the code's test is
    the claim's test on the query as typed. *)
Lemma matches_untouched_query (q : jsstring) (p : Product) :
  trim (toLowerCase q) = toLowerCase q ->
  MatchesNormalised toLowerCase q p <-> MatchesQuery toLowerCase q p.
Proof.
  intros H. unfold MatchesNormalised, MatchesQuery, CISubstring.
  rewrite H. reflexivity.
Qed.

(** C2: an empty query, or one made of whitespace only, returns the whole
    product list unchanged. *)
Theorem filteredProducts_blank (products : list Product) (q : jsstring) :
  forallb isWhiteSpace q = true ->
  filteredProducts toLowerCase products q = products.
Proof.
  intros H. unfold filteredProducts.
  rewrite trim_whitespace; [reflexivity|].
  apply List.Forall_forall. intros c Hc.
  rewrite forallb_forall in H. apply H, Hc.
Qed.

(** C7: the output of the search filter is a subsequence of the input list,
    in the same relative order, and each returned product is one of the
    input products itself, so all six of its fields are those of the
    input. *)
Theorem filteredProducts_frame (products : list Product) (q : jsstring) :
  sublist (filteredProducts toLowerCase products q) products
  /\ forall i r,
       filteredProducts toLowerCase products q !! i = Some r ->
       exists j p,
         products !! j = Some p
         /\ id r = id p /\ name r = name p /\ description r = description p
         /\ picture r = picture p /\ price r = price p
         /\ categories r = categories p.
Proof.
  assert (Hsub : sublist (filteredProducts toLowerCase products q) products).
  { unfold filteredProducts. destruct (negb (truthy (trim q))).
    - reflexivity.
    - apply filter_sublist_of. }
  split; [exact Hsub|].
  intros i r Hr.
  assert (Hin : r ∈ products).
  { eapply sublist_subseteq; [exact Hsub|].
    apply list_elem_of_lookup. exists i. exact Hr. }
  apply list_elem_of_lookup in Hin as [j Hj].
  exists j, r. repeat split; exact Hj || reflexivity.
Qed.

(** X2: filtering the output again with the same query changes nothing. *)
Theorem filteredProducts_idempotent (products : list Product) (q : jsstring) :
  filteredProducts toLowerCase (filteredProducts toLowerCase products q) q
  = filteredProducts toLowerCase products q.
Proof.
  unfold filteredProducts. destruct (negb (truthy (trim q))); [reflexivity|].
  induction products as [|p products IH]; [reflexivity|].
  cbn [List.filter].
  destruct (productMatches toLowerCase (trim (toLowerCase q)) p) eqn:E.
  - cbn [List.filter]. rewrite E, IH. reflexivity.
  - exact IH.
Qed.

End SearchFacts.

Example filteredProducts_shirt :
  filteredProducts asciiToLowerCase [shirt] (lit "SHI") = [shirt]
  /\ filteredProducts asciiToLowerCase [shirt] (lit "cloth") = [shirt]
  /\ filteredProducts asciiToLowerCase [shirt] (lit "shoe") = [].
Proof. repeat split; reflexivity. Qed.

(** C1 as stated fails for a query typed with surrounding blanks: the code
    trims the query before comparing, so [" shirt "] selects the product
    named ["Shirt"], although [" shirt "] itself occurs in none of its
    fields, whatever the letter case. *)
Lemma filteredProducts_untrimmed_counterexample :
  let q := lit " shirt " in
  truthy (trim q) = true
  /\ ~ (forall p,
          In p (filteredProducts asciiToLowerCase [shirt] q)
          <-> In p [shirt] /\ MatchesQuery asciiToLowerCase q p).
Proof.
  intros q. split; [reflexivity|]. intros H.
  assert (Hin : In shirt (filteredProducts asciiToLowerCase [shirt] q)).
  { left. reflexivity. }
  apply H in Hin as [_ Hm].
  unfold MatchesQuery, CISubstring in Hm.
  rewrite <- !includes_spec in Hm.
  destruct Hm as [Hm | [Hm | [c [Hc Hm]]]].
  - vm_compute in Hm. discriminate.
  - vm_compute in Hm. discriminate.
  - rewrite <- includes_spec in Hm.
    destruct Hc as [<- | []]. vm_compute in Hm. discriminate.
Qed.

Lemma filteredProducts_exact_witness :
  In shirt (filteredProducts asciiToLowerCase [shirt] (lit " shirt "))
  <-> In shirt [shirt]
      /\ MatchesNormalised asciiToLowerCase (lit " shirt ") shirt.
Proof.
  apply (filteredProducts_exact asciiToLowerCase [shirt] (lit " shirt ")).
  reflexivity.
Defined.

Lemma filteredProducts_blank_witness :
  filteredProducts asciiToLowerCase [shirt] (lit "   ") = [shirt].
Proof.
  apply (filteredProducts_blank asciiToLowerCase [shirt] (lit "   ")).
  reflexivity.
Defined.

(** ** The voice-over handlers *)

Section VoiceFacts.

Import SpeechSynthesis.

Lemma play_flags who spoken v w :
  Voice.isPlaying (fst (Voice.play who spoken v w)) = Voice.isPlaying v
  /\ Voice.isPaused (fst (Voice.play who spoken v w)) = Voice.isPaused v.
Proof.
  unfold Voice.play.
  destruct (negb (Voice.speechSupported v) || negb (Voice.hasText spoken));
    split; reflexivity.
Qed.

Lemma play_synth who spoken v w :
  snd (Voice.play who spoken v w) = w
  \/ snd (Voice.play who spoken v w)
     = speak (mkUtterance (default [] spoken) who) (cancel w).
Proof.
  unfold Voice.play.
  destruct (negb (Voice.speechSupported v) || negb (Voice.hasText spoken));
    [left | right]; reflexivity.
Qed.

Lemma speak_cancel_queue u w : queue (speak u (cancel w)) = [u].
Proof. reflexivity. Qed.

Lemma play_queue who spoken v w :
  length (queue w) <= 1 ->
  length (queue (snd (Voice.play who spoken v w))) <= 1.
Proof.
  intros H. destruct (play_synth who spoken v w) as [-> | ->];
    [exact H | simpl; lia].
Qed.

Lemma pause_queue v w : queue (snd (Voice.pause v w)) = queue w.
Proof.
  unfold Voice.pause.
  destruct (negb (Voice.speechSupported v)); [reflexivity|].
  destruct (speaking w && negb (paused w)); reflexivity.
Qed.

Lemma resume_queue v w : queue (snd (Voice.resume v w)) = queue w.
Proof.
  unfold Voice.resume.
  destruct (negb (Voice.speechSupported v)); [reflexivity|].
  destruct (paused w); reflexivity.
Qed.

Lemma stop_queue v w :
  length (queue w) <= 1 -> length (queue (snd (Voice.stop v w))) <= 1.
Proof.
  unfold Voice.stop.
  destruct (negb (Voice.speechSupported v)); simpl; lia.
Qed.

Lemma pause_flags v w :
  Voice.isPlaying v = true -> App.flagsOk (fst (Voice.pause v w)).
Proof.
  unfold Voice.pause, App.flagsOk. intros Hp.
  destruct (negb (Voice.speechSupported v)); [intros _; exact Hp|].
  destruct (speaking w && negb (paused w)); intros _; exact Hp.
Qed.

Lemma resume_flags v w :
  App.flagsOk v -> App.flagsOk (fst (Voice.resume v w)).
Proof.
  unfold Voice.resume, App.flagsOk. intros Hv.
  destruct (negb (Voice.speechSupported v)); [exact Hv|].
  destruct (paused w); [discriminate | exact Hv].
Qed.

Lemma stop_flags v w :
  App.flagsOk v -> App.flagsOk (fst (Voice.stop v w)).
Proof.
  unfold Voice.stop, App.flagsOk. intros Hv.
  destruct (negb (Voice.speechSupported v)); [exact Hv | discriminate].
Qed.

Lemma callback_flags c v : App.flagsOk (App.callback c v).
Proof. destruct c; unfold App.flagsOk; simpl; discriminate. Qed.

End VoiceFacts.

(** ** The page *)

Section AppFacts.

Import SpeechSynthesis App.

Lemma click_voice p b W : voiceOf p (click p b W) = fst (voiceEffect p b W).
Proof. destruct p, b; reflexivity. Qed.

Lemma click_synth p b W : synth (click p b W) = snd (voiceEffect p b W).
Proof. destruct p, b; reflexivity. Qed.

Lemma click_other p q b W : p <> q -> voiceOf q (click p b W) = voiceOf q W.
Proof. intros H. destruct p, q, b; first [congruence | reflexivity]. Qed.

Lemma setVoiceOf_same p v W : voiceOf p (setVoiceOf p v W) = v.
Proof. destruct p; reflexivity. Qed.

Lemma setVoiceOf_other p q v W :
  p <> q -> voiceOf q (setVoiceOf p v W) = voiceOf q W.
Proof. intros H. destruct p, q; first [congruence | reflexivity]. Qed.

Lemma setVoiceOf_synth p v W : synth (setVoiceOf p v W) = synth W.
Proof. destruct p; reflexivity. Qed.

Lemma close_synth p dt W :
  synth (close p dt W) = Voice.cleanup (voiceOf p W) (synth W).
Proof. destruct p; reflexivity. Qed.

Lemma close_same p dt W : voiceOf p (close p dt W) = Voice.initial.
Proof. destruct p; reflexivity. Qed.

Lemma close_other p q dt W : p <> q -> voiceOf q (close p dt W) = voiceOf q W.
Proof. intros H. destruct p, q; first [congruence | reflexivity]. Qed.

Lemma panel_eq_dec (p q : Panel) : {p = q} + {p <> q}.
Proof. decide equality. Qed.

Lemma rendered_pause p W :
  rendered p Pause W = true -> Voice.isPlaying (voiceOf p W) = true.
Proof.
  unfold rendered. rewrite !andb_true_iff. tauto.
Qed.

Lemma voiceEffect_queue p b W :
  length (queue (synth W)) <= 1 ->
  length (queue (snd (voiceEffect p b W))) <= 1.
Proof.
  intros H. destruct b; simpl.
  - apply play_queue, H.
  - rewrite pause_queue. exact H.
  - rewrite resume_queue. exact H.
  - apply stop_queue, H.
  - apply stop_queue, H.
Qed.

Lemma voiceEffect_flags p b W :
  rendered p b W = true ->
  flagsOk (voiceOf p W) -> flagsOk (fst (voiceEffect p b W)).
Proof.
  intros Hr Hv. destruct b; simpl.
  - unfold flagsOk.
    destruct (play_flags p (spokenOf p W) (voiceOf p W) (synth W)) as [-> ->].
    exact Hv.
  - apply pause_flags, rendered_pause, Hr.
  - apply resume_flags, Hv.
  - apply stop_flags, Hv.
  - apply stop_flags, Hv.
Qed.

Lemma begin_queue w w' : begin w = Some w' -> queue w' = queue w.
Proof.
  unfold begin. destruct (queue w) eqn:E; [discriminate|].
  destruct (speaking w || paused w); [discriminate|].
  intros [= <-]. simpl. congruence.
Qed.

Lemma finish_queue w w' :
  finish w = Some w' -> length (queue w') <= length (queue w).
Proof.
  unfold finish. destruct (queue w) eqn:E; [discriminate|].
  destruct (speaking w); [|discriminate].
  intros [= <-]. simpl. lia.
Qed.

(** Every event keeps at most one utterance in the browser's queue. *)
Lemma fire_queue e W W' :
  fire e W = Some W' ->
  length (queue (synth W)) <= 1 -> length (queue (synth W')) <= 1.
Proof.
  intros Hf Hq. destruct e; simpl in Hf.
  - injection Hf as <-. rewrite setVoiceOf_synth. exact Hq.
  - injection Hf as <-. rewrite close_synth. unfold Voice.cleanup.
    destruct (Voice.speechRef (voiceOf p W)); [simpl; lia | exact Hq].
  - destruct p; injection Hf as <-; exact Hq.
  - injection Hf as <-. exact Hq.
  - injection Hf as <-. exact Hq.
  - injection Hf as <-. exact Hq.
  - injection Hf as <-. exact Hq.
  - destruct (rendered p b W); [|discriminate].
    injection Hf as <-. rewrite click_synth. apply voiceEffect_queue, Hq.
  - destruct (inWindow W); [|discriminate].
    destruct (begin (synth W)) as [w'|] eqn:E; [|discriminate].
    injection Hf as <-. simpl. rewrite (begin_queue _ _ E). exact Hq.
  - destruct (inWindow W); [|discriminate].
    destruct (finish (synth W)) as [w'|] eqn:E; [|discriminate].
    injection Hf as <-. simpl. pose proof (finish_queue _ _ E). lia.
  - destruct (Voice.speechRef (voiceOf p W)); [|discriminate].
    injection Hf as <-. rewrite setVoiceOf_synth. exact Hq.
Qed.

(** The voice-over state of the panel in the goal is the one [Hv] speaks
    of, up to computation. *)
Ltac unchanged Hv :=
  first [exact (Hv Describe) | exact (Hv Fashion) | exact (Hv SmartSell)].

(** Every event keeps the flag invariant of every panel. *)
Lemma fire_flags e W W' :
  fire e W = Some W' ->
  (forall q, flagsOk (voiceOf q W)) -> forall q, flagsOk (voiceOf q W').
Proof.
  intros Hf Hv q. destruct e; simpl in Hf.
  - injection Hf as <-. destruct (panel_eq_dec p q) as [<- | Hne].
    + rewrite setVoiceOf_same. exact (Hv p).
    + rewrite setVoiceOf_other by exact Hne. exact (Hv q).
  - injection Hf as <-. destruct (panel_eq_dec p q) as [<- | Hne].
    + rewrite close_same. unfold flagsOk. simpl. discriminate.
    + rewrite close_other by exact Hne. exact (Hv q).
  - destruct p; injection Hf as <-; destruct q; unchanged Hv.
  - injection Hf as <-. destruct q; unchanged Hv.
  - injection Hf as <-. destruct q, o as [[r alt]|err]; unchanged Hv.
  - injection Hf as <-. destruct q; unchanged Hv.
  - injection Hf as <-. destruct q; unchanged Hv.
  - destruct (rendered p b W) eqn:Hr; [|discriminate].
    injection Hf as <-. destruct (panel_eq_dec p q) as [<- | Hne].
    + rewrite click_voice. apply voiceEffect_flags; [exact Hr | exact (Hv p)].
    + rewrite click_other by exact Hne. exact (Hv q).
  - destruct (inWindow W); [|discriminate].
    destruct (begin (synth W)) as [w'|]; [|discriminate].
    injection Hf as <-. destruct q; unchanged Hv.
  - destruct (inWindow W); [|discriminate].
    destruct (finish (synth W)) as [w'|]; [|discriminate].
    injection Hf as <-. destruct q; unchanged Hv.
  - destruct (Voice.speechRef (voiceOf p W)); [|discriminate].
    injection Hf as <-. destruct (panel_eq_dec p q) as [<- | Hne].
    + rewrite setVoiceOf_same. apply callback_flags.
    + rewrite setVoiceOf_other by exact Hne. exact (Hv q).
Qed.

Lemma run_invariant (Inv : World -> Prop) :
  (forall e W W', fire e W = Some W' -> Inv W -> Inv W') ->
  forall es W W', run es W = Some W' -> Inv W -> Inv W'.
Proof.
  intros Hstep. induction es as [|e es IH]; intros W W' Hr HI; simpl in Hr.
  - injection Hr as <-. exact HI.
  - destruct (fire e W) as [W1|] eqn:E; [|discriminate].
    apply (IH W1 W' Hr). exact (Hstep e W W1 E HI).
Qed.

End AppFacts.

(** ** The speech controller *)

Section SpeechClaims.

Import SpeechSynthesis App.

(** C3: in every state the page reaches, the browser's queue holds at most
    one utterance, and the play handler of each panel (describe,
    fashion advice, smart sell) either returns early, leaving the browser
    alone, or calls [cancel] and then [speak], after which the queue holds
    exactly the new utterance. *)
Theorem play_cancels_before_speak
    (inWindow : bool) (defaultType : ImageDescribe.DescribeType)
    (es : list Event) (W : World) :
  run es (initial inWindow defaultType) = Some W ->
  length (queue (synth W)) <= 1
  /\ forall p,
       let utterance := mkUtterance (default [] (spokenOf p W)) p in
       synth (click p Play W)
       = (if Voice.speechSupported (voiceOf p W)
             && Voice.hasText (spokenOf p W)
          then speak utterance (cancel (synth W))
          else synth W)
       /\ queue (speak utterance (cancel (synth W))) = [utterance].
Proof.
  intros Hrun. split.
  - apply (run_invariant (fun W => length (queue (synth W)) <= 1)
             fire_queue es _ W Hrun).
    simpl. lia.
  - intros p utterance. split; [|reflexivity].
    rewrite click_synth. simpl. unfold Voice.play.
    destruct (Voice.speechSupported (voiceOf p W)); simpl; [|reflexivity].
    destruct (Voice.hasText (spokenOf p W)); reflexivity.
Qed.

(** C9: in every state the page reaches through rendered buttons (play,
    pause, resume, stop, start over), mount effects, closings, inputs,
    settled requests, queue moves and the utterance callbacks ([onstart],
    [onend], [onerror]), each panel has [isPaused] true only if [isPlaying]
    is true; and both flags are false in the initial state. *)
Theorem paused_only_while_playing
    (inWindow : bool) (defaultType : ImageDescribe.DescribeType)
    (es : list Event) (W : World) :
  run es (initial inWindow defaultType) = Some W ->
  forall p,
    (Voice.isPaused (voiceOf p W) = true ->
     Voice.isPlaying (voiceOf p W) = true)
    /\ Voice.isPlaying (voiceOf p (initial inWindow defaultType)) = false
    /\ Voice.isPaused (voiceOf p (initial inWindow defaultType)) = false.
Proof.
  intros Hrun p. split; [|destruct p; split; reflexivity].
  revert p.
  apply (run_invariant (fun W => forall q, flagsOk (voiceOf q W))
           fire_flags es _ W Hrun).
  intros q. destruct q; unfold flagsOk; simpl; discriminate.
Qed.

Lemma click_unsupported p b W :
  b <> Play -> b <> StartOver ->
  Voice.speechSupported (voiceOf p W) = false -> click p b W = W.
Proof.
  intros Hb1 Hb2 Hs.
  destruct W as [iw w [i t c1 c2 l v h a] [fi fc fv fh] [si sq sc sv sh]].
  destruct p, b; try congruence; simpl in Hs;
    unfold click, ImageDescribe.pauseDescription,
      ImageDescribe.resumeDescription, ImageDescribe.stopDescription,
      FashionAssistant.pauseAdvice, FashionAssistant.resumeAdvice,
      FashionAssistant.stopAdvice, SmartProductSell.pauseRecommendation,
      SmartProductSell.resumeRecommendation,
      SmartProductSell.stopRecommendation,
      Voice.pause, Voice.resume, Voice.stop; simpl; rewrite Hs; reflexivity.
Qed.

Lemma click_pause_unchanged p W :
  speaking (synth W) && negb (paused (synth W)) = false ->
  click p Pause W = W.
Proof.
  intros Hs.
  destruct W as [iw w [i t c1 c2 l v h a] [fi fc fv fh] [si sq sc sv sh]].
  simpl in Hs.
  destruct p;
    unfold click, ImageDescribe.pauseDescription,
      FashionAssistant.pauseAdvice, SmartProductSell.pauseRecommendation,
      Voice.pause; simpl; rewrite Hs;
    match goal with
    | |- context [negb (Voice.speechSupported ?x)] =>
        destruct (negb (Voice.speechSupported x)); reflexivity
    end.
Qed.

Lemma click_resume_unchanged p W :
  paused (synth W) = false -> click p Resume W = W.
Proof.
  intros Hs.
  destruct W as [iw w [i t c1 c2 l v h a] [fi fc fv fh] [si sq sc sv sh]].
  simpl in Hs.
  destruct p;
    unfold click, ImageDescribe.resumeDescription,
      FashionAssistant.resumeAdvice, SmartProductSell.resumeRecommendation,
      Voice.resume; simpl; rewrite Hs;
    match goal with
    | |- context [negb (Voice.speechSupported ?x)] =>
        destruct (negb (Voice.speechSupported x)); reflexivity
    end.
Qed.

Lemma click_guards (p : Panel) (W : World) :
  (Voice.speechSupported (voiceOf p W) = false ->
     click p Pause W = W /\ click p Resume W = W /\ click p Stop W = W)
  /\ (click p Pause W <> W ->
        Voice.speechSupported (voiceOf p W) = true
        /\ speaking (synth W) = true /\ paused (synth W) = false)
  /\ (click p Resume W <> W ->
        Voice.speechSupported (voiceOf p W) = true
        /\ paused (synth W) = true).
Proof.
  split; [|split].
  - intros Hs. repeat split; apply click_unsupported; congruence.
  - intros Hne.
    destruct (Voice.speechSupported (voiceOf p W)) eqn:Hs.
    + split; [reflexivity|].
      destruct (speaking (synth W) && negb (paused (synth W))) eqn:Hg.
      * apply andb_true_iff in Hg as [H1 H2].
        apply negb_true_iff in H2. split; assumption.
      * exfalso. apply Hne, click_pause_unchanged, Hg.
    + exfalso. apply Hne, click_unsupported; congruence.
  - intros Hne.
    destruct (Voice.speechSupported (voiceOf p W)) eqn:Hs.
    + split; [reflexivity|].
      destruct (paused (synth W)) eqn:Hg; [reflexivity|].
      exfalso. apply Hne, click_resume_unchanged, Hg.
    + exfalso. apply Hne, click_unsupported; congruence.
Qed.

Lemma voiceEffect_speakingHead p b W :
  PageConditions.speakingHead W ->
  speaking (snd (voiceEffect p b W)) = true ->
  exists u rest, queue (snd (voiceEffect p b W)) = u :: rest.
Proof.
  unfold PageConditions.speakingHead. intros H.
  destruct b; cbn [voiceEffect];
    unfold Voice.play, Voice.pause, Voice.resume, Voice.stop;
    repeat match goal with
           | |- context [if ?c then _ else _] => destruct c
           end; cbn; first [exact H | discriminate].
Qed.

Lemma fire_speakingHead e W W' :
  fire e W = Some W' ->
  PageConditions.speakingHead W -> PageConditions.speakingHead W'.
Proof.
  intros Hf H. unfold PageConditions.speakingHead in *.
  destruct e; simpl in Hf.
  - injection Hf as <-. rewrite setVoiceOf_synth. exact H.
  - injection Hf as <-. rewrite close_synth. unfold Voice.cleanup.
    destruct (Voice.speechRef (voiceOf p W)); [discriminate | exact H].
  - destruct p; injection Hf as <-; exact H.
  - injection Hf as <-. exact H.
  - injection Hf as <-. exact H.
  - injection Hf as <-. exact H.
  - injection Hf as <-. exact H.
  - destruct (rendered p b W); [|discriminate].
    injection Hf as <-. rewrite click_synth.
    apply voiceEffect_speakingHead. exact H.
  - destruct (inWindow W); [|discriminate].
    destruct (begin (synth W)) as [w'|] eqn:E; [|discriminate].
    injection Hf as <-. simpl. intros _. rewrite (begin_queue _ _ E).
    unfold begin in E. destruct (queue (synth W)) as [|u rest];
      [discriminate | eauto].
  - destruct (inWindow W); [|discriminate].
    unfold finish in Hf. destruct (queue (synth W)) as [|u rest];
      [discriminate|].
    destruct (speaking (synth W)); [|discriminate].
    injection Hf as <-. simpl. discriminate.
  - destruct (Voice.speechRef (voiceOf p W)); [|discriminate].
    injection Hf as <-. rewrite setVoiceOf_synth. exact H.
Qed.

(** C5, amended: when speech synthesis is unsupported, the pause, resume and
    stop handlers of a panel leave the whole page state unchanged (the
    panel's flags and the browser's queue included); the pause handler
    changes something only if the panel is supported and the browser is
    speaking and not paused, and in every state the page reaches the browser
    is speaking only while an utterance is at the head of its queue; the
    resume handler changes something only if the panel is supported and the
    browser's [paused] attribute is set, whether or not an utterance is
    queued. *)
Theorem pause_resume_stop_guarded (p : Panel) (W : World) :
  (Voice.speechSupported (voiceOf p W) = false ->
     click p Pause W = W /\ click p Resume W = W /\ click p Stop W = W)
  /\ (click p Pause W <> W ->
        Voice.speechSupported (voiceOf p W) = true
        /\ speaking (synth W) = true /\ paused (synth W) = false)
  /\ (forall inWindow defaultType es,
        run es (initial inWindow defaultType) = Some W ->
        speaking (synth W) = true ->
        exists u rest, queue (synth W) = u :: rest)
  /\ (click p Resume W <> W ->
        Voice.speechSupported (voiceOf p W) = true
        /\ paused (synth W) = true).
Proof.
  destruct (click_guards p W) as (H1 & H2 & H3).
  split; [exact H1|]. split; [exact H2|]. split; [|exact H3].
  intros iw dt es Hrun.
  apply (run_invariant PageConditions.speakingHead fire_speakingHead
           es _ W Hrun).
  unfold PageConditions.speakingHead. simpl. discriminate.
Qed.

(** X3: the stop handler of a supported panel empties the browser's queue and
    clears both flags of the panel. *)
Theorem stop_clears (p : Panel) (W : World) :
  Voice.speechSupported (voiceOf p W) = true ->
  queue (synth (click p Stop W)) = []
  /\ Voice.isPlaying (voiceOf p (click p Stop W)) = false
  /\ Voice.isPaused (voiceOf p (click p Stop W)) = false.
Proof.
  intros Hs. rewrite click_synth, click_voice. cbn [voiceEffect].
  unfold Voice.stop. rewrite Hs. repeat split.
Qed.

End SpeechClaims.

Import SpeechSynthesis App.

Lemma play_cancels_before_speak_witness :
  length (queue (synth playingWorld)) <= 1.
Proof.
  apply (play_cancels_before_speak true ImageDescribe.product
           [ Mount Describe;
             DescribeSettled (inl (sampleDescription, Some (lit "Red shirt")));
             Click Describe Play; SynthBegin; Deliver Describe OnStart ]
           playingWorld).
  reflexivity.
Defined.

Lemma paused_only_while_playing_witness :
  Voice.isPlaying (voiceOf Describe pausedWorld) = true.
Proof.
  apply (paused_only_while_playing true ImageDescribe.product
           sampleSession pausedWorld).
  - reflexivity.
  - reflexivity.
Defined.

Lemma pause_resume_stop_guarded_witness :
  ((speaking (synth playingWorld) = true
    /\ paused (synth playingWorld) = false
    /\ Voice.speechSupported (voiceOf Fashion playingWorld) = false)
   /\ click Fashion Pause playingWorld = playingWorld
   /\ click Fashion Resume playingWorld = playingWorld
   /\ click Fashion Stop playingWorld = playingWorld)
  /\ (paused (synth pausedWorld) = true
      /\ click Fashion Resume pausedWorld = pausedWorld)
  /\ (Voice.speechSupported (voiceOf Describe playingWorld) = true
      /\ speaking (synth playingWorld) = true
      /\ paused (synth playingWorld) = false)
  /\ (exists u rest, queue (synth playingWorld) = u :: rest)
  /\ (Voice.speechSupported (voiceOf Describe pausedWorld) = true
      /\ paused (synth pausedWorld) = true).
Proof.
  split; [|split; [|split; [|split]]].
  - split; [repeat split|].
    apply (proj1 (pause_resume_stop_guarded Fashion playingWorld)).
    reflexivity.
  - split; [reflexivity|].
    apply (proj1 (pause_resume_stop_guarded Fashion pausedWorld)).
    reflexivity.
  - apply (proj1 (proj2 (pause_resume_stop_guarded Describe playingWorld))).
    vm_compute. discriminate.
  - apply (proj1 (proj2 (proj2
             (pause_resume_stop_guarded Describe playingWorld)))
             true ImageDescribe.product
             [ Mount Describe;
               DescribeSettled
                 (inl (sampleDescription, Some (lit "Red shirt")));
               Click Describe Play; SynthBegin; Deliver Describe OnStart ]).
    + reflexivity.
    + reflexivity.
  - apply (proj2 (proj2 (proj2
             (pause_resume_stop_guarded Describe pausedWorld)))).
    vm_compute. discriminate.
Defined.

(** C5 as worded fails: after the description was played and paused and the
    utterance then left the queue, the Resume button is still rendered, no
    utterance is paused (the queue is empty), and the resume handler changes
    the state all the same: it clears [isPaused] and the browser's [paused]
    attribute. *)
Lemma resume_without_utterance_counterexample :
  run endsWhilePaused (initial true ImageDescribe.product)
  = Some endedWhilePaused
  /\ rendered Describe Resume endedWhilePaused = true
  /\ Voice.speechSupported (voiceOf Describe endedWhilePaused) = true
  /\ queue (synth endedWhilePaused) = []
  /\ ~ UtterancePaused (synth endedWhilePaused)
  /\ click Describe Resume endedWhilePaused <> endedWhilePaused
  /\ Voice.isPaused (voiceOf Describe endedWhilePaused) = true
  /\ Voice.isPaused
       (voiceOf Describe (click Describe Resume endedWhilePaused)) = false
  /\ ~ (click Describe Resume endedWhilePaused <> endedWhilePaused ->
        UtterancePaused (synth endedWhilePaused)).
Proof.
  assert (Hq : ~ UtterancePaused (synth endedWhilePaused)).
  { intros [_ [u Hu]]. exact Hu. }
  assert (Hc : click Describe Resume endedWhilePaused <> endedWhilePaused).
  { vm_compute. discriminate. }
  repeat split; try reflexivity; try assumption.
  intros H. apply Hq, H, Hc.
Qed.

(** The same state of the describe panel is reached without the utterance
    failing: while the description is paused, the smart-sell panel shows a
    recommendation and its Start Over button is pressed, whose [cancel]
    empties the queue and keeps the browser paused. *)
Example resume_after_other_panel_cancels :
  exists W,
    run (sampleSession
           ++ [ Mount SmartSell; SmartSellSettled (inl sampleRecommendation);
                Click SmartSell StartOver ])
      (initial true ImageDescribe.product) = Some W
    /\ rendered Describe Resume W = true
    /\ queue (synth W) = []
    /\ paused (synth W) = true
    /\ click Describe Resume W <> W.
Proof.
  eexists. split; [reflexivity|]. repeat split. vm_compute. discriminate.
Qed.

Lemma stop_clears_witness :
  queue (synth (click Describe Stop pausedWorld)) = []
  /\ Voice.isPlaying (voiceOf Describe (click Describe Stop pausedWorld))
     = false
  /\ Voice.isPaused (voiceOf Describe (click Describe Stop pausedWorld))
     = false.
Proof.
  apply (stop_clears Describe pausedWorld). reflexivity.
Defined.

(** The handlers on their own do not keep the flag invariant: it rests on
    the Pause button being rendered only while [isPlaying] holds.  Here the
    pause handler runs after the browser began to speak and before the
    [onstart] callback ran. *)
Example pause_before_onstart :
  let W :=
    default (initial true ImageDescribe.product)
      (run [ Mount Describe;
             DescribeSettled (inl (sampleDescription, None));
             Click Describe Play; SynthBegin ]
         (initial true ImageDescribe.product)) in
  rendered Describe Pause W = false
  /\ Voice.isPaused (voiceOf Describe (click Describe Pause W)) = true
  /\ Voice.isPlaying (voiceOf Describe (click Describe Pause W)) = false.
Proof. repeat split; reflexivity. Qed.

(** ** Start over *)

(** C6: after the start-over handler of each panel (describe, fashion
    advice, smart sell) the stored result, the selected image and, in the
    smart-sell panel, the query text have their initial values: no result,
    no image, the empty text.  The describe panel's alt text is discarded
    with its result. *)
Theorem start_over_discards :
  (forall defaultType st w,
     let st' := fst (ImageDescribe.handleReset st w) in
     let st0 := ImageDescribe.initial defaultType in
     Hook.result (ImageDescribe.hook st') = None
     /\ ImageDescribe.altText st' = None
     /\ ImageDescribe.selectedImage st' = None
     /\ Hook.result (ImageDescribe.hook st0) = None
     /\ ImageDescribe.altText st0 = None
     /\ ImageDescribe.selectedImage st0 = None)
  /\ (forall st w,
        let st' := fst (FashionAssistant.handleStartOver st w) in
        let st0 := FashionAssistant.initial in
        Hook.result (FashionAssistant.hook st') = None
        /\ FashionAssistant.userImage st' = None
        /\ Hook.result (FashionAssistant.hook st0) = None
        /\ FashionAssistant.userImage st0 = None)
  /\ (forall st w,
        let st' := fst (SmartProductSell.handleStartOver st w) in
        let st0 := SmartProductSell.initial in
        Hook.result (SmartProductSell.hook st') = None
        /\ SmartProductSell.userImage st' = None
        /\ SmartProductSell.queryText st' = []
        /\ Hook.result (SmartProductSell.hook st0) = None
        /\ SmartProductSell.userImage st0 = None
        /\ SmartProductSell.queryText st0 = []).
Proof.
  repeat split.
Qed.

(** ** The service wrappers *)

(** C4: when the request made by a service wrapper (smart sell, fashion)
    fails, the wrapper passes the failure on, the hook catches it and stores
    a non-empty error string in the view state, and the result shown before
    is left as it was. *)
Theorem failed_request_surfaces_error (D : Type)
    (post : jsstring -> SmartSellService.FormData -> SmartSellService.Headers ->
            SmartSellService.AxiosResponse D + TransportError)
    (API_BASE_URL : jsstring) (h : Hook.t D) :
  (forall params e,
     SmartSellService.getProductRecommendation D post API_BASE_URL params
     = inr e ->
     let h' :=
       SmartSellService.getRecommendation D post API_BASE_URL params h in
     (exists msg, Hook.error h' = Some msg /\ truthy msg = true)
     /\ Hook.result h' = Hook.result h)
  /\ (forall image e,
        FashionService.getFashionAdvice D post API_BASE_URL image = inr e ->
        let h' :=
          FashionService.getFashionAdviceHook D post API_BASE_URL image h in
        (exists msg, Hook.error h' = Some msg /\ truthy msg = true)
        /\ Hook.result h' = Hook.result h).
Proof.
  assert (Hmsg : forall e, truthy (Hook.errorMessage e) = true).
  { intros e. unfold Hook.errorMessage.
    destruct (truthy (message e)) eqn:E; [exact E | reflexivity]. }
  split.
  - intros params e He h'. subst h'.
    unfold SmartSellService.getRecommendation. rewrite He. simpl.
    split; [|reflexivity]. exists (Hook.errorMessage e). split; [reflexivity|].
    apply Hmsg.
  - intros image e He h'. subst h'.
    unfold FashionService.getFashionAdviceHook. rewrite He. simpl.
    split; [|reflexivity]. exists (Hook.errorMessage e). split; [reflexivity|].
    apply Hmsg.
Qed.

Lemma failed_request_surfaces_error_witness :
  let h := Hook.mk false None (Some sampleRecommendation) in
  let h' := SmartSellService.getRecommendation _ offline (lit "/api")
              sampleRequest h in
  (exists msg, Hook.error h' = Some msg /\ truthy msg = true)
  /\ Hook.result h' = Some sampleRecommendation.
Proof.
  intros h h'.
  apply (proj1 (failed_request_surfaces_error _ offline (lit "/api") h)
           sampleRequest (mkTransportError (lit "Network Error"))).
  reflexivity.
Defined.

(** C10: [getProductRecommendation] posts a form of exactly four entries,
    [image], [text], [model_name] and [stream], in that order.  The image is
    the request's file; the text is the request's text as a [USVString]; a
    model name that is given and not empty is sent (as a [USVString]), an
    omitted or empty one becomes ['gemini-1.5-pro']; the stream entry is
    ['true'] for [stream: true] and ['false'] for [stream: false] and for
    an omitted flag.  When the transport answers, the wrapper returns the
    parsed body of the answer unchanged. *)
Theorem getProductRecommendation_form (D : Type)
    (post : jsstring -> SmartSellService.FormData -> SmartSellService.Headers ->
            SmartSellService.AxiosResponse D + TransportError)
    (API_BASE_URL : jsstring)
    (params : SmartSellService.SmartSellRequest)
    (response : SmartSellService.AxiosResponse D) :
  post (API_BASE_URL ++ lit "/sell-product-from-query")
    [ (lit "image", SmartSellService.FileValue (SmartSellService.image params));
      (lit "text",
       SmartSellService.StringValue
         (toUSVString (SmartSellService.text params)));
      (lit "model_name",
       SmartSellService.StringValue
         match SmartSellService.model_name params with
         | Some (c :: name) => toUSVString (c :: name)
         | Some [] | None => lit "gemini-1.5-pro"
         end);
      (lit "stream",
       SmartSellService.StringValue
         match SmartSellService.stream params with
         | Some true => lit "true"
         | Some false | None => lit "false"
         end) ]
    [(lit "Content-Type", lit "multipart/form-data")]
  = inl response ->
  SmartSellService.getProductRecommendation D post API_BASE_URL params
  = inl (SmartSellService.data response)
  /\ SmartSellService.buildFormData params
     = [ (lit "image",
          SmartSellService.FileValue (SmartSellService.image params));
         (lit "text",
          SmartSellService.StringValue
            (toUSVString (SmartSellService.text params)));
         (lit "model_name",
          SmartSellService.StringValue
            match SmartSellService.model_name params with
            | Some (c :: name) => toUSVString (c :: name)
            | Some [] | None => lit "gemini-1.5-pro"
            end);
         (lit "stream",
          SmartSellService.StringValue
            match SmartSellService.stream params with
            | Some true => lit "true"
            | Some false | None => lit "false"
            end) ]
  /\ (forallb (fun c => negb (isHighSurrogate c) && negb (isLowSurrogate c))
        (SmartSellService.text params) = true ->
      toUSVString (SmartSellService.text params)
      = SmartSellService.text params).
Proof.
  assert (Hform :
    SmartSellService.buildFormData params
    = [ (lit "image",
         SmartSellService.FileValue (SmartSellService.image params));
        (lit "text",
         SmartSellService.StringValue
           (toUSVString (SmartSellService.text params)));
        (lit "model_name",
         SmartSellService.StringValue
           match SmartSellService.model_name params with
           | Some (c :: name) => toUSVString (c :: name)
           | Some [] | None => lit "gemini-1.5-pro"
           end);
        (lit "stream",
         SmartSellService.StringValue
           match SmartSellService.stream params with
           | Some true => lit "true"
           | Some false | None => lit "false"
           end) ]).
  { destruct params as [image text [[|c name]|] [[|]|]]; reflexivity. }
  intros H. split; [|split].
  - unfold SmartSellService.getProductRecommendation.
    rewrite Hform, H. reflexivity.
  - exact Hform.
  - apply toUSVString_no_surrogates.
Qed.

Lemma getProductRecommendation_form_witness :
  SmartSellService.getProductRecommendation _ echo (lit "/api") explicitRequest
  = inl [ (lit "image", SmartSellService.FileValue samplePhoto);
          (lit "text",
           SmartSellService.StringValue (lit "shades " ++ [65533%N]));
          (lit "model_name",
           SmartSellService.StringValue (lit "gemini-2.0-flash"));
          (lit "stream", SmartSellService.StringValue (lit "true")) ]
  /\ SmartSellService.getProductRecommendation _ echo (lit "/api")
       sampleRequest
     = inl [ (lit "image", SmartSellService.FileValue samplePhoto);
             (lit "text",
              SmartSellService.StringValue (lit "sunglasses for summer"));
             (lit "model_name",
              SmartSellService.StringValue (lit "gemini-1.5-pro"));
             (lit "stream", SmartSellService.StringValue (lit "false")) ].
Proof.
  split.
  - apply (getProductRecommendation_form _ echo (lit "/api") explicitRequest
             (SmartSellService.mkAxiosResponse
                [ (lit "image", SmartSellService.FileValue samplePhoto);
                  (lit "text",
                   SmartSellService.StringValue (lit "shades " ++ [65533%N]));
                  (lit "model_name",
                   SmartSellService.StringValue (lit "gemini-2.0-flash"));
                  (lit "stream", SmartSellService.StringValue (lit "true")) ]
                200%N)).
    reflexivity.
  - apply (getProductRecommendation_form _ echo (lit "/api") sampleRequest
             (SmartSellService.mkAxiosResponse
                [ (lit "image", SmartSellService.FileValue samplePhoto);
                  (lit "text",
                   SmartSellService.StringValue
                     (lit "sunglasses for summer"));
                  (lit "model_name",
                   SmartSellService.StringValue (lit "gemini-1.5-pro"));
                  (lit "stream",
                   SmartSellService.StringValue (lit "false")) ]
                200%N)).
    reflexivity.
Defined.

(** ** Highlighting the search term *)

Import RegExp SearchHighlight.

Example highlightSearchTerm_plain_term :
  highlightSearchTerm asciiCanonicalize (lit "Red Shirt") (lit "shirt")
  = Return (Nodes [ Plain (Some (lit "Red "));
                    Mark 1 (Some (lit "Shirt"));
                    Plain (Some []) ]).
Proof. reflexivity. Qed.

Example highlightSearchTerm_blank_term :
  highlightSearchTerm asciiCanonicalize (lit "Red Shirt") (lit "  ")
  = Return (Text (lit "Red Shirt")).
Proof. reflexivity. Qed.

(** C8 fails on the code: the search term is spliced into the pattern
    without escaping, so for the term ["("] the pattern is ["(()"], an
    unterminated group, and [new RegExp] throws, whatever the text and
    whatever the host's case folding. *)
Theorem highlightSearchTerm_open_paren_throws
    (Canonicalize : N -> N) (text : jsstring) :
  highlightSearchTerm Canonicalize text (lit "(") = Throw.
Proof. reflexivity. Qed.

(** The same splice breaks the concatenation without throwing: a term that
    is itself a group makes [split] return every separator twice. *)
Example highlightSearchTerm_group_term_repeats :
  exists nodes,
    highlightSearchTerm asciiCanonicalize (lit "bab") (lit "(a)")
    = Return (Nodes nodes)
    /\ shownText (Nodes nodes) = lit "baab".
Proof. eexists. split; reflexivity. Qed.

(** *** The split loop *)

Section SplitFacts.

Variable Canonicalize : N -> N.

(** A successful match went through its continuation, at an index that is
    not before the one it started from. *)
Lemma matcher_advances (ic : bool) (r : Regex) :
  forall (x : MatchState) (c : Continuation) (z : MatchState),
    matcher Canonicalize ic r x c = Some z ->
    exists y, c y = Some z /\ endIndex x <= endIndex y.
Proof.
  induction r as [| ch | | | | r1 IH1 r2 IH2 | r1 IH1 r2 IH2 | i r IH];
    intros x c z H; cbn [matcher] in H.
  - exists x. split; [exact H | lia].
  - destruct (remaining x) as [|d rest]; [discriminate|].
    destruct (if ic then _ else _); [|discriminate].
    eexists. split; [exact H | simpl; lia].
  - destruct (remaining x) as [|d rest]; [discriminate|].
    destruct (isLineTerminator d); [discriminate|].
    eexists. split; [exact H | simpl; lia].
  - destruct (Nat.eqb (endIndex x) 0); [|discriminate].
    exists x. split; [exact H | lia].
  - destruct (remaining x); [|discriminate].
    exists x. split; [exact H | lia].
  - apply IH1 in H as [y1 [H1 Hle1]].
    apply IH2 in H1 as [y2 [H2 Hle2]].
    exists y2. split; [exact H2 | lia].
  - destruct (matcher Canonicalize ic r1 x c) as [z1|] eqn:E.
    + injection H as <-. apply IH1, E.
    + apply IH2, H.
  - apply IH in H as [y [Hy Hle]].
    eexists. split; [exact Hy | simpl; lia].
Qed.

Lemma matchAt_advances (re : RegExp.t) (i : nat) (rest : jsstring)
    (z : MatchState) :
  matchAt Canonicalize re i rest = Some z -> i <= endIndex z.
Proof.
  unfold matchAt. intros H.
  apply matcher_advances in H as [y [Hy Hle]].
  injection Hy as <-. exact Hle.
Qed.

Lemma exec_sticky (splitter : RegExp.t) (S : jsstring) (q : nat) :
  sticky splitter = true -> q <= length S ->
  fst (exec Canonicalize (setLastIndex q splitter) S)
  = matchAt Canonicalize (setLastIndex q splitter) q (drop q S).
Proof.
  intros Hs Hq. unfold exec.
  cbn [setLastIndex global sticky lastIndex]. rewrite Hs, orb_true_r.
  destruct (Nat.ltb_spec (length S) q) as [Hbad | _]; [lia|].
  destruct (matchAt Canonicalize _ q (drop q S)); reflexivity.
Qed.

(** The split loop ends within the rounds [split] gives it. *)
Lemma splitLoop_total (splitter : RegExp.t) (S : jsstring) :
  sticky splitter = true ->
  forall fuel p q,
    p <= q -> q <= length S ->
    2 * (length S - q) + (if Nat.ltb p q then 1 else 0) + 1 <= fuel ->
    is_Some (splitLoop Canonicalize splitter S fuel p q).
Proof.
  intros Hs. induction fuel as [|fuel IH]; intros p q Hpq HqS Hfuel; [lia|].
  cbn [splitLoop]. destruct (Nat.ltb_spec q (length S)) as [Hlt | Hge];
    [|eexists; reflexivity].
  assert (Hnext :
            is_Some (splitLoop Canonicalize splitter S fuel p (Datatypes.S q))).
  { apply IH; [lia | lia |].
    destruct (Nat.ltb_spec p (Datatypes.S q)); destruct (Nat.ltb p q); lia. }
  rewrite exec_sticky by (exact Hs || lia).
  destruct (matchAt Canonicalize _ q (drop q S)) as [z|] eqn:E;
    [|exact Hnext].
  apply matchAt_advances in E.
  destruct (Nat.eqb_spec (Nat.min (endIndex z) (length S)) p) as [Heq | Hne];
    [exact Hnext|].
  set (e := Nat.min (endIndex z) (length S)) in *.
  assert (He : is_Some (splitLoop Canonicalize splitter S fuel e e)).
  { apply IH; [lia | lia |].
    rewrite Nat.ltb_irrefl.
    destruct (Nat.ltb_spec p q); lia. }
  destruct He as [A ->]. eexists. reflexivity.
Qed.

Lemma split_total (re : RegExp.t) (S : jsstring) :
  is_Some (split Canonicalize re S).
Proof.
  unfold split. destruct S as [|d S].
  - destruct (fst (exec Canonicalize _ [])); eexists; reflexivity.
  - apply splitLoop_total; [reflexivity | lia | lia |].
    cbn [Nat.ltb Nat.leb]. lia.
Qed.

(** The function leaves the model only through a pattern outside the
    fragment. *)
Lemma highlightSearchTerm_unmodelled (text searchTerm : jsstring) :
  highlightSearchTerm Canonicalize text searchTerm = Unmodelled ->
  create (lit "(" ++ searchTerm ++ lit ")") (lit "gi") = Outside.
Proof.
  unfold highlightSearchTerm.
  destruct (negb (truthy (trim searchTerm))); [discriminate|].
  destruct (create _ _) as [regex| |]; [|discriminate|reflexivity].
  destruct (split_total regex text) as [parts ->]. discriminate.
Qed.

End SplitFacts.

(** *** Terms without pattern syntax *)

Section PlainTerms.

Variable Canonicalize : N -> N.

Lemma parseFrom_plain (term s : jsstring) (top : Frame) (stack : list Frame)
    (next : nat) :
  forallb plainUnit term = true ->
  parseFrom (term ++ s) top stack next
  = parseFrom s
      (mkFrame (index top) (alts top)
         (rev (List.map Char term) ++ terms top)
         (match term with [] => last top | _ :: _ => Atom end))
      stack next.
Proof.
  revert top. induction term as [|c term IH]; intros top Hp.
  - simpl. destruct top; reflexivity.
  - simpl in Hp. apply andb_true_iff in Hp as [Hc Hp].
    unfold plainUnit in Hc. rewrite negb_true_iff in Hc.
    repeat (apply orb_false_iff in Hc as [Hc ?]).
    cbn [app parseFrom].
    repeat match goal with
           | H : N.eqb c _ = false |- _ => rewrite H; clear H
           end.
    cbn [orb]. rewrite (IH _ Hp).
    unfold pushTerm. cbn [index alts terms last List.map rev].
    rewrite <- app_assoc. cbn [app].
    destruct term; reflexivity.
Qed.

Lemma create_plain (term : jsstring) :
  forallb plainUnit term = true ->
  create (lit "(" ++ term ++ lit ")") (lit "gi")
  = Parsed (RegExp.mk (Group 1 (seqOf (List.map Char term))) 1
              true true false 0).
Proof.
  intros Hp. unfold create, parsePattern.
  change (lit "(" ++ term ++ lit ")") with (40%N :: term ++ [41%N]).
  cbn [parseFrom N.eqb Pos.eqb].
  assert (Hq : match term ++ [41%N] with
               | 63%N :: _ => @Outside (Regex * nat)
               | _ => parseFrom (term ++ [41%N]) (mkFrame 1 [] [] NoTerm)
                        [mkFrame 0 [] [] NoTerm] 2
               end
               = parseFrom (term ++ [41%N]) (mkFrame 1 [] [] NoTerm)
                   [mkFrame 0 [] [] NoTerm] 2).
  { destruct term as [|c term]; [reflexivity|].
    simpl in Hp. apply andb_true_iff in Hp as [Hc _].
    destruct (N.eqb_spec c 63) as [-> | Hne]; [discriminate|].
    cbn [app]. destruct c as [|p]; [reflexivity|].
    repeat (destruct p as [p|p|]; try reflexivity); congruence. }
  rewrite Hq, (parseFrom_plain term [41%N] _ _ _ Hp).
  cbn [parseFrom N.eqb Pos.eqb index alts terms last pushTerm].
  unfold disjunction, alternative.
  cbn [alts terms fold_left rev app seqOf index Nat.pred].
  rewrite app_nil_r, rev_involutive. reflexivity.
Qed.

Lemma matcher_chars_from (term : jsstring) (r : Regex) (x : MatchState)
    (c : Continuation) :
  matcher Canonicalize true (fold_left Seq (List.map Char term) r) x c
  = matcher Canonicalize true r x
      (fold_right (fun ch k y => matcher Canonicalize true (Char ch) y k)
         c term).
Proof.
  revert r. induction term as [|ch term IH]; intros r; [reflexivity|].
  cbn [List.map fold_left]. rewrite IH. reflexivity.
Qed.

Lemma chars_then (term : jsstring) (c : Continuation) (y : MatchState) :
  fold_right (fun ch k y => matcher Canonicalize true (Char ch) y k) c term y
  = match foldedPrefix Canonicalize term (remaining y) with
    | Some rest =>
        c (mkState (endIndex y + length term) rest (captures y))
    | None => None
    end.
Proof.
  revert y. induction term as [|ch term IH]; intros [i rest caps].
  - cbn. rewrite Nat.add_0_r. reflexivity.
  - cbn [fold_right matcher remaining endIndex captures foldedPrefix].
    destruct rest as [|d rest]; [reflexivity|].
    destruct (N.eqb (Canonicalize ch) (Canonicalize d)); [|reflexivity].
    rewrite IH. cbn [remaining endIndex captures length].
    replace (S i + length term)%nat with (i + S (length term))%nat by lia.
    reflexivity.
Qed.

Lemma matcher_plain (term : jsstring) (x : MatchState) (c : Continuation) :
  matcher Canonicalize true (seqOf (List.map Char term)) x c
  = match foldedPrefix Canonicalize term (remaining x) with
    | Some rest =>
        c (mkState (endIndex x + length term) rest (captures x))
    | None => None
    end.
Proof.
  destruct term as [|ch term].
  - destruct x as [i rest caps]. cbn. rewrite Nat.add_0_r. reflexivity.
  - cbn [List.map seqOf]. rewrite matcher_chars_from.
    exact (chars_then (ch :: term) c x).
Qed.

(** One attempt of [(term)] at index [i]. *)
Lemma matchAt_plain (term : jsstring) (s : bool) (li i : nat)
    (rest : jsstring) :
  matchAt Canonicalize
    (RegExp.mk (Group 1 (seqOf (List.map Char term))) 1 true true s li) i rest
  = match foldedPrefix Canonicalize term rest with
    | Some rest' =>
        Some (mkState (i + length term) rest'
                [Some (i, (i + length term)%nat)])
    | None => None
    end.
Proof.
  unfold matchAt. cbn [pattern ignoreCase nGroups matcher].
  rewrite matcher_plain. cbn [remaining endIndex captures].
  destruct (foldedPrefix Canonicalize term rest); reflexivity.
Qed.

Lemma foldedPrefix_length (term rest rest' : jsstring) :
  foldedPrefix Canonicalize term rest = Some rest' ->
  length rest = (length term + length rest')%nat.
Proof.
  revert rest. induction term as [|ch term IH]; intros rest H.
  - injection H as <-. reflexivity.
  - destruct rest as [|d rest]; [discriminate|]. simpl in H.
    destruct (N.eqb (Canonicalize ch) (Canonicalize d)); [|discriminate].
    simpl. rewrite (IH rest H). reflexivity.
Qed.







End PlainTerms.


(** * Further properties of the code *)

(** ** The product list page *)

Section ProductListFacts.

Import ProductListView.

Variable toLowerCase : jsstring -> jsstring.

Lemma filteredProducts_sublist (products : list Product) (q : jsstring) :
  sublist (filteredProducts toLowerCase products q) products.
Proof.
  unfold filteredProducts. destruct (negb (truthy (trim q))).
  - reflexivity.
  - apply filter_sublist_of.
Qed.


(** X5: products with distinct ids stay distinct after filtering, so the keys
    of the rendered cards ([key={product.id}]) are distinct. *)
Theorem filteredProducts_keys_distinct (products : list Product)
    (q : jsstring) :
  NoDup (List.map id products) ->
  NoDup (List.map id (filteredProducts toLowerCase products q)).
Proof.
  intros H. eapply sublist_NoDup; [exact H|].
  apply (fmap_sublist id), filteredProducts_sublist.
Qed.

End ProductListFacts.


Lemma filteredProducts_keys_distinct_witness :
  filteredProducts asciiToLowerCase catalogue (lit "SH")
  = [shirt; sunglasses; loafers]
  /\ NoDup (List.map id (filteredProducts asciiToLowerCase catalogue (lit "SH"))).
Proof.
  split; [reflexivity|].
  apply (filteredProducts_keys_distinct asciiToLowerCase catalogue (lit "SH")).
  apply (bool_decide_unpack _). vm_compute. exact I.
Defined.


(** ** Trimming *)

Lemma trimStart_idempotent (s : jsstring) :
  trimStart (trimStart s) = trimStart s.
Proof.
  induction s as [|c s IH]; [reflexivity|]. simpl.
  destruct (isWhiteSpace c) eqn:E; [exact IH|]. simpl. rewrite E. reflexivity.
Qed.

Lemma trimStart_app_kept (l m : jsstring) (c : N) :
  isWhiteSpace c = false -> trimStart (l ++ c :: m) = trimStart l ++ c :: m.
Proof.
  intros Hc. induction l as [|d l IH]; simpl.
  - rewrite Hc. reflexivity.
  - destruct (isWhiteSpace d); [exact IH | reflexivity].
Qed.

Lemma trimEnd_cons_kept (c : N) (t : jsstring) :
  isWhiteSpace c = false -> trimEnd (c :: t) = c :: trimEnd t.
Proof.
  intros Hc. unfold trimEnd. cbn [rev].
  rewrite (trimStart_app_kept (rev t) [] c Hc), rev_app_distr. reflexivity.
Qed.

Lemma trimEnd_idempotent (s : jsstring) : trimEnd (trimEnd s) = trimEnd s.
Proof.
  unfold trimEnd. rewrite rev_involutive, trimStart_idempotent. reflexivity.
Qed.

Lemma trimStart_head (s : jsstring) :
  trimStart s = []
  \/ exists c t, trimStart s = c :: t /\ isWhiteSpace c = false.
Proof.
  induction s as [|c s IH]; [left; reflexivity|]. simpl.
  destruct (isWhiteSpace c) eqn:E; [exact IH|]. right. eauto.
Qed.

(** Trimming twice is trimming once. *)
Lemma trim_idempotent (s : jsstring) : trim (trim s) = trim s.
Proof.
  unfold trim. destruct (trimStart_head s) as [-> | [c [t [-> Hc]]]].
  - reflexivity.
  - rewrite (trimEnd_cons_kept c t Hc). simpl. rewrite Hc.
    rewrite (trimEnd_cons_kept c _ Hc), trimEnd_idempotent. reflexivity.
Qed.

(** ** Searching with blanks around the query *)

(** X7: blanks typed before or after the query do not change what is found,
    for a query on which the host's [toLowerCase] and [trim] commute. *)
Theorem filteredProducts_ignores_outer_blanks
    (toLowerCase : jsstring -> jsstring)
    (products : list Product) (q : jsstring) :
  toLowerCase (trim q) = trim (toLowerCase q) ->
  filteredProducts toLowerCase products (trim q)
  = filteredProducts toLowerCase products q.
Proof.
  intros H. unfold filteredProducts.
  rewrite trim_idempotent, H, trim_idempotent. reflexivity.
Qed.

Lemma filteredProducts_ignores_outer_blanks_witness :
  filteredProducts asciiToLowerCase [shirt] (trim (lit "  Shirt "))
  = filteredProducts asciiToLowerCase [shirt] (lit "  Shirt ").
Proof.
  apply (filteredProducts_ignores_outer_blanks asciiToLowerCase [shirt]
           (lit "  Shirt ")).
  reflexivity.
Defined.

(** ** Submitting a panel *)

Section SubmitFacts.

Import Handlers.

(** X8: in each panel the submit handler calls the request function exactly
    when the submit button is enabled; with the button disabled it only
    alerts. *)
Theorem submit_sends_iff_enabled :
  (forall st,
     describeDisabled st = false
     <-> exists params, handleDescribe st = Sent params)
  /\ (forall st,
        adviceDisabled st = false
        <-> exists params, handleGetAdvice st = Sent params)
  /\ (forall st,
        recommendationDisabled st = false
        <-> exists params, handleGetRecommendation st = Sent params).
Proof.
  split; [|split]; intros st.
  - unfold describeDisabled, handleDescribe.
    destruct (ImageDescribe.selectedImage st); simpl; split;
      first [ intros _; eexists; reflexivity | reflexivity
            | discriminate | intros [? [=]] ].
  - unfold adviceDisabled, handleGetAdvice.
    destruct (FashionAssistant.userImage st); simpl; split;
      first [ intros _; eexists; reflexivity | reflexivity
            | discriminate | intros [? [=]] ].
  - unfold recommendationDisabled, handleGetRecommendation.
    destruct (SmartProductSell.userImage st); simpl;
      [destruct (truthy (trim (SmartProductSell.queryText st)))|];
      simpl; split;
      first [ intros _; eexists; reflexivity | reflexivity
            | discriminate | intros [? [=]] ].
Qed.

(** X9: every request the smart-sell panel sends carries the chosen photo, the
    query with its outer blanks removed and not empty, the model name
    ['gemini-1.5-pro'] and [stream: false]; the form the service builds from
    it holds the photo, that query as a [USVString], ['gemini-1.5-pro'] and
    ['false']. *)
Theorem handleGetRecommendation_request (st : SmartProductSell.State)
    (params : SmartSellService.SmartSellRequest) :
  handleGetRecommendation st = Sent params ->
  SmartProductSell.userImage st = Some (SmartSellService.image params)
  /\ SmartSellService.text params = trim (SmartProductSell.queryText st)
  /\ trim (SmartSellService.text params) = SmartSellService.text params
  /\ truthy (SmartSellService.text params) = true
  /\ SmartSellService.model_name params = Some (lit "gemini-1.5-pro")
  /\ SmartSellService.stream params = Some false
  /\ SmartSellService.buildFormData params
     = [ (lit "image",
          SmartSellService.FileValue (SmartSellService.image params));
         (lit "text",
          SmartSellService.StringValue
            (toUSVString (trim (SmartProductSell.queryText st))));
         (lit "model_name",
          SmartSellService.StringValue (lit "gemini-1.5-pro"));
         (lit "stream", SmartSellService.StringValue (lit "false")) ].
Proof.
  unfold handleGetRecommendation.
  destruct (SmartProductSell.userImage st) as [userImage|]; [|discriminate].
  destruct (truthy (trim (SmartProductSell.queryText st))) eqn:Ht;
    [|discriminate].
  cbn [negb]. intros [= <-].
  cbn [SmartSellService.image SmartSellService.text
       SmartSellService.model_name SmartSellService.stream].
  repeat split; try assumption. apply trim_idempotent.
Qed.

End SubmitFacts.

Lemma handleGetRecommendation_request_witness :
  let params :=
    SmartSellService.mkRequest App.samplePhoto (lit "sunglasses for summer")
      (Some (lit "gemini-1.5-pro")) (Some false) in
  SmartProductSell.userImage Handlers.readyToFind
  = Some (SmartSellService.image params)
  /\ SmartSellService.text params
     = trim (SmartProductSell.queryText Handlers.readyToFind)
  /\ trim (SmartSellService.text params) = SmartSellService.text params
  /\ truthy (SmartSellService.text params) = true
  /\ SmartSellService.model_name params = Some (lit "gemini-1.5-pro")
  /\ SmartSellService.stream params = Some false
  /\ SmartSellService.buildFormData params
     = [ (lit "image", SmartSellService.FileValue App.samplePhoto);
         (lit "text",
          SmartSellService.StringValue (lit "sunglasses for summer"));
         (lit "model_name",
          SmartSellService.StringValue (lit "gemini-1.5-pro"));
         (lit "stream", SmartSellService.StringValue (lit "false")) ].
Proof.
  apply (handleGetRecommendation_request Handlers.readyToFind
           (SmartSellService.mkRequest App.samplePhoto
              (lit "sunglasses for summer")
              (Some (lit "gemini-1.5-pro")) (Some false))).
  reflexivity.
Defined.

(** ** Loading the product image *)

Section ProductImageFacts.

Import Handlers.

Variable toLowerCase : jsstring -> jsstring.
Variable fetch : jsstring -> FetchResponse + TransportError.
Variable origin : jsstring.

(** X10: however [loadProductImage] ends, the loading flag is down afterwards
    and nothing else of the panel has changed; a failure of any kind (a rejected
    fetch, a response that is not ok, an unreadable body) surfaces as the one
    message ['Could not load product image']; on success the file carries
    the body's bytes, the body's type as [new File] normalises it, and the
    generated name as a [USVString]. *)
Theorem loadProductImage_settles (imageUrl productName : jsstring)
    (st : ImageDescribe.State) :
  let r := loadProductImage toLowerCase fetch origin imageUrl productName st in
  snd r = setIsLoadingProductImage false st
  /\ match fst r with
     | inr thrown => thrown = lit "Could not load product image"
     | inl file =>
         exists response b,
           fetch (fullImageUrl origin imageUrl) = inl response
           /\ ok response = true /\ blob response = inl b
           /\ file = mkFile (toUSVString (fileNameFor toLowerCase productName))
                       (normalizeType (blobType b)) (blobBytes b)
     end.
Proof.
  unfold loadProductImage. cbn [fst snd]. split.
  - destruct st; reflexivity.
  - unfold tryLoad.
    destruct (fetch (fullImageUrl origin imageUrl)) as [response|e] eqn:Ef;
      [|reflexivity].
    destruct (ok response) eqn:Eok; cbn [negb]; [|reflexivity].
    destruct (blob response) as [b|e] eqn:Eb; [|reflexivity].
    exists response, b. repeat split; assumption.
Qed.

(** X11: the effect that loads the product's picture runs only for a panel
    opened for a product, and then touches only the selected image and the
    loading flag: when the load succeeds the loaded file becomes the
    selected image, when it fails the selection stays as it was, and either
    way the loading flag is down afterwards; without a product, or when a
    person is to be described, the effect changes nothing. *)
Theorem productImageEffect_frame (product : option Product)
    (st : ImageDescribe.State) :
  let st' := productImageEffect toLowerCase fetch origin product st in
  ImageDescribe.describeType st' = ImageDescribe.describeType st
  /\ ImageDescribe.copySuccessDescription st'
     = ImageDescribe.copySuccessDescription st
  /\ ImageDescribe.copySuccessAlt st' = ImageDescribe.copySuccessAlt st
  /\ ImageDescribe.voice st' = ImageDescribe.voice st
  /\ ImageDescribe.hook st' = ImageDescribe.hook st
  /\ ImageDescribe.altText st' = ImageDescribe.altText st
  /\ (forall p file,
        product = Some p ->
        ImageDescribe.describeType st = ImageDescribe.product ->
        tryLoad toLowerCase fetch origin (picture p) (name p) = inl file ->
        ImageDescribe.selectedImage st' = Some file
        /\ ImageDescribe.isLoadingProductImage st' = false)
  /\ (forall p thrown,
        product = Some p ->
        ImageDescribe.describeType st = ImageDescribe.product ->
        tryLoad toLowerCase fetch origin (picture p) (name p) = inr thrown ->
        ImageDescribe.selectedImage st' = ImageDescribe.selectedImage st
        /\ ImageDescribe.isLoadingProductImage st' = false)
  /\ (product = None
      \/ ImageDescribe.describeType st = ImageDescribe.person ->
      st' = st).
Proof.
  unfold productImageEffect. destruct product as [p|].
  - destruct (ImageDescribe.describeType st) eqn:Et.
    + unfold loadProductImage.
      destruct (tryLoad toLowerCase fetch origin (picture p) (name p))
        as [file|thrown] eqn:El; cbn;
        do 6 (split; [first [reflexivity | assumption]|]);
        (split; [|split]).
      * intros p' file' [= <-] _ Hl. rewrite El in Hl.
        injection Hl as <-. split; reflexivity.
      * intros p' thrown' [= <-] _ Hl. rewrite El in Hl. discriminate.
      * intros [H | H]; discriminate.
      * intros p' file' [= <-] _ Hl. rewrite El in Hl. discriminate.
      * intros p' thrown' [= <-] _ Hl. split; reflexivity.
      * intros [H | H]; discriminate.
    + do 6 (split; [first [reflexivity | assumption]|]). split; [|split].
      * intros p' file' _ H. discriminate.
      * intros p' thrown' _ H. discriminate.
      * reflexivity.
  - do 6 (split; [reflexivity|]). split; [|split].
    + intros p' file' H. discriminate.
    + intros p' thrown' H. discriminate.
    + reflexivity.
Qed.

Lemma replaceWhitespaceRuns_clean (inRun : bool) (s : jsstring) :
  forallb (fun c => negb (isWhiteSpace c)) (replaceWhitespaceRuns inRun s)
  = true.
Proof.
  revert inRun. induction s as [|c s IH]; intros inRun; [reflexivity|].
  cbn [replaceWhitespaceRuns]. destruct (isWhiteSpace c) eqn:E.
  - destruct inRun; [apply IH|]. cbn [forallb]. rewrite IH. reflexivity.
  - cbn [forallb]. rewrite E, IH. reflexivity.
Qed.

(** X12: the name given to the file never contains whitespace and ends in
    [.jpg], both as the handler computes it and as the file carries it; and
    when the page's origin starts with ["http"], so does the URL that is
    fetched. *)
Theorem productImage_request_shape (imageUrl productName : jsstring) :
  startsWith origin (lit "http") = true ->
  startsWith (fullImageUrl origin imageUrl) (lit "http") = true
  /\ forallb (fun c => negb (isWhiteSpace c))
       (fileNameFor toLowerCase productName) = true
  /\ (exists stem, fileNameFor toLowerCase productName = stem ++ lit ".jpg")
  /\ forall b type,
       let file := newFile b (fileNameFor toLowerCase productName) type in
       forallb (fun c => negb (isWhiteSpace c)) (fileName file) = true
       /\ exists stem, fileName file = stem ++ lit ".jpg".
Proof.
  intros Ho. split; [|split; [|split]].
  - unfold fullImageUrl.
    destruct (startsWith imageUrl (lit "http")) eqn:E; [exact E|].
    apply startsWith_spec in Ho as [post ->].
    apply startsWith_spec. exists (post ++ imageUrl).
    rewrite <- app_assoc. reflexivity.
  - unfold fileNameFor. rewrite forallb_app, replaceWhitespaceRuns_clean.
    reflexivity.
  - eexists. reflexivity.
  - intros b type file. subst file. cbn [newFile fileName]. split.
    + apply toUSVString_clean. unfold fileNameFor.
      rewrite forallb_app, replaceWhitespaceRuns_clean. reflexivity.
    + unfold fileNameFor. rewrite toUSVString_app by reflexivity.
      eexists. reflexivity.
Qed.

End ProductImageFacts.

Example loadProductImage_serves_jpeg :
  Handlers.loadProductImage asciiToLowerCase Handlers.servesJpeg
    (lit "https://shop.example") (picture shirt) (name shirt)
    (ImageDescribe.initial ImageDescribe.product)
  = (inl (mkFile (lit "shirt.jpg") (lit "image/jpeg") [255%N; 216%N; 255%N]),
     ImageDescribe.initial ImageDescribe.product).
Proof. reflexivity. Qed.

Lemma productImageEffect_frame_witness :
  (ImageDescribe.selectedImage
     (Handlers.productImageEffect asciiToLowerCase Handlers.servesJpeg
        (lit "https://shop.example") (Some shirt) pickedPhoto)
   = Some (mkFile (lit "shirt.jpg") (lit "image/jpeg")
             [255%N; 216%N; 255%N])
   /\ ImageDescribe.isLoadingProductImage
        (Handlers.productImageEffect asciiToLowerCase Handlers.servesJpeg
           (lit "https://shop.example") (Some shirt) pickedPhoto) = false)
  /\ (ImageDescribe.selectedImage
        (Handlers.productImageEffect asciiToLowerCase Handlers.notFound
           (lit "https://shop.example") (Some shirt) pickedPhoto)
      = Some App.samplePhoto
      /\ ImageDescribe.isLoadingProductImage
           (Handlers.productImageEffect asciiToLowerCase Handlers.notFound
              (lit "https://shop.example") (Some shirt) pickedPhoto) = false)
  /\ Handlers.productImageEffect asciiToLowerCase Handlers.servesJpeg
       (lit "https://shop.example") None pickedPhoto = pickedPhoto.
Proof.
  split; [|split].
  - apply (proj1 (proj2 (proj2 (proj2 (proj2 (proj2 (proj2
             (productImageEffect_frame asciiToLowerCase Handlers.servesJpeg
                (lit "https://shop.example") (Some shirt) pickedPhoto)))))))
             shirt); reflexivity.
  - apply (proj1 (proj2 (proj2 (proj2 (proj2 (proj2 (proj2 (proj2
             (productImageEffect_frame asciiToLowerCase Handlers.notFound
                (lit "https://shop.example") (Some shirt) pickedPhoto))))))))
             shirt (lit "Failed to load product image")); reflexivity.
  - apply (proj2 (proj2 (proj2 (proj2 (proj2 (proj2 (proj2 (proj2
             (productImageEffect_frame asciiToLowerCase Handlers.servesJpeg
                (lit "https://shop.example") None pickedPhoto))))))))).
    left. reflexivity.
Defined.

Lemma productImage_request_shape_witness :
  startsWith
    (Handlers.fullImageUrl (lit "https://shop.example")
       (lit "/static/img/products/shirt.jpg")) (lit "http") = true
  /\ forallb (fun c => negb (isWhiteSpace c))
       (Handlers.fileNameFor asciiToLowerCase (lit "Red  Cotton Shirt")) = true
  /\ (exists stem,
       Handlers.fileNameFor asciiToLowerCase (lit "Red  Cotton Shirt")
       = stem ++ lit ".jpg")
  /\ forall b type,
       let file :=
         Handlers.newFile b
           (Handlers.fileNameFor asciiToLowerCase (lit "Red  Cotton Shirt"))
           type in
       forallb (fun c => negb (isWhiteSpace c)) (fileName file) = true
       /\ exists stem, fileName file = stem ++ lit ".jpg".
Proof.
  apply (productImage_request_shape asciiToLowerCase
           (lit "https://shop.example")
           (lit "/static/img/products/shirt.jpg") (lit "Red  Cotton Shirt")).
  reflexivity.
Defined.

Example fileNameFor_collapses_runs :
  Handlers.fileNameFor asciiToLowerCase (lit "Red  Cotton Shirt")
  = lit "red-cotton-shirt.jpg".
Proof. reflexivity. Qed.

(** ** More on the voice-over handlers *)

Section VoiceMore.

Import SpeechSynthesis App.


(** X13: pressing Play a second time restarts the same utterance: the second
    click leaves the page exactly as the first one left it, and the queue
    does not grow. *)
Theorem play_twice_is_play_once (p : Panel) (W : World) :
  click p Play (click p Play W) = click p Play W.
Proof.
  destruct W as [iw w [i t c1 c2 l v h a] [fi fc fv fh] [si sq sc sv sh]].
  destruct p;
    [destruct v as [pl ps su rf], h as [il er [r|]]
    | destruct fv as [pl ps su rf], fh as [il er [r|]]
    | destruct sv as [pl ps su rf], sh as [il er [r|]]];
    destruct su; try reflexivity;
    unfold click, ImageDescribe.playDescription, FashionAssistant.playAdvice,
      SmartProductSell.playRecommendation, Voice.play; cbn;
    match goal with
    | |- context [truthy ?x] => destruct (truthy x) eqn:E; cbn; rewrite ?E
    end; reflexivity.
Qed.

(** X14: pause and then resume bring the page back to where it was, when the
    panel is supported and not paused and the browser is speaking and not
    paused. *)
Theorem pause_then_resume (p : Panel) (W : World) :
  Voice.speechSupported (voiceOf p W) = true ->
  Voice.isPaused (voiceOf p W) = false ->
  speaking (synth W) = true ->
  paused (synth W) = false ->
  click p Resume (click p Pause W) = W.
Proof.
  intros Hs Hp Hsp Hpa.
  destruct W as [iw [qu sp pa] [i t c1 c2 l v h a] [fi fc fv fh]
                   [si sq sc sv sh]].
  cbn in Hsp, Hpa. subst sp pa.
  destruct p; cbn in Hs, Hp;
    [destruct v as [pl ps su rf] | destruct fv as [pl ps su rf]
     | destruct sv as [pl ps su rf]];
    cbn in Hs, Hp; subst su ps; reflexivity.
Qed.

End VoiceMore.

Lemma pause_then_resume_witness :
  App.click SpeechSynthesis.Describe App.Resume
    (App.click SpeechSynthesis.Describe App.Pause App.playingWorld)
  = App.playingWorld.
Proof.
  apply (pause_then_resume SpeechSynthesis.Describe App.playingWorld);
    reflexivity.
Defined.

(** ** Conditions kept along every run of the page *)

Section PageFacts.

Import SpeechSynthesis App PageConditions.

Lemma voiceEffect_ref p b W :
  b <> Play ->
  Voice.speechRef (fst (voiceEffect p b W))
  = Voice.speechRef (voiceOf p W).
Proof.
  intros Hb. destruct b; try congruence; cbn [voiceEffect];
    unfold Voice.pause, Voice.resume, Voice.stop;
    destruct (negb (Voice.speechSupported (voiceOf p W))); try reflexivity.
  - destruct (speaking (synth W) && negb (paused (synth W))); reflexivity.
  - destruct (paused (synth W)); reflexivity.
Qed.

Lemma voiceEffect_queue_kept p b W :
  b <> Play ->
  queue (snd (voiceEffect p b W)) = queue (synth W)
  \/ queue (snd (voiceEffect p b W)) = [].
Proof.
  intros Hb. destruct b; try congruence; cbn [voiceEffect].
  - left. apply pause_queue.
  - left. apply resume_queue.
  - unfold Voice.stop.
    destruct (negb (Voice.speechSupported (voiceOf p W))); [left | right];
      reflexivity.
  - unfold Voice.stop.
    destruct (negb (Voice.speechSupported (voiceOf p W))); [left | right];
      reflexivity.
Qed.

Lemma owned_same_ref W W' u :
  Voice.speechRef (voiceOf (owner u) W')
  = Voice.speechRef (voiceOf (owner u) W) ->
  owned W u -> owned W' u.
Proof. unfold owned. intros ->. tauto. Qed.

Lemma setVoiceOf_ref p v W q :
  Voice.speechRef v = Voice.speechRef (voiceOf p W) ->
  Voice.speechRef (voiceOf q (setVoiceOf p v W))
  = Voice.speechRef (voiceOf q W).
Proof.
  intros H. destruct (panel_eq_dec p q) as [<- | Hne].
  - rewrite setVoiceOf_same. exact H.
  - rewrite setVoiceOf_other by exact Hne. reflexivity.
Qed.

Lemma click_ref p b W q :
  b <> Play ->
  Voice.speechRef (voiceOf q (click p b W)) = Voice.speechRef (voiceOf q W).
Proof.
  intros Hb. destruct (panel_eq_dec p q) as [<- | Hne].
  - rewrite click_voice. apply voiceEffect_ref, Hb.
  - rewrite click_other by exact Hne. reflexivity.
Qed.

Lemma finish_tail w w' :
  finish w = Some w' -> exists u, queue w = u :: queue w'.
Proof.
  unfold finish. destruct (queue w) as [|u rest]; [discriminate|].
  destruct (speaking w); [|discriminate].
  intros [= <-]. exists u. reflexivity.
Qed.

Lemma hasText_default (spoken : option jsstring) :
  Voice.hasText spoken = true -> truthy (default [] spoken) = true.
Proof. destruct spoken; [exact (fun H => H) | discriminate]. Qed.

(** Every event keeps the queued utterances owned. *)
Lemma fire_owned e W W' :
  fire e W = Some W' ->
  Forall (owned W) (queue (synth W)) -> Forall (owned W') (queue (synth W')).
Proof.
  intros Hf Hq. destruct e; simpl in Hf.
  - injection Hf as <-. rewrite setVoiceOf_synth.
    eapply Forall_impl; [exact Hq|]. intros u. apply owned_same_ref.
    apply setVoiceOf_ref. reflexivity.
  - injection Hf as <-. rewrite close_synth. unfold Voice.cleanup.
    destruct (Voice.speechRef (voiceOf p W)) as [held|] eqn:Er;
      [constructor|].
    rewrite Forall_forall in Hq |- *. intros u Hu.
    pose proof (Hq u Hu) as Hown. revert Hown. apply owned_same_ref.
    destruct (panel_eq_dec p (owner u)) as [-> | Hne].
    + destruct (Hq u Hu) as [_ Href]. congruence.
    + rewrite close_other by exact Hne. reflexivity.
  - assert (Hs : forall q, voiceOf q W' = voiceOf q W).
    { destruct p; injection Hf as <-; intros q; destruct q; reflexivity. }
    assert (Hw : synth W' = synth W).
    { destruct p; injection Hf as <-; reflexivity. }
    rewrite Hw. eapply Forall_impl; [exact Hq|]. intros u.
    apply owned_same_ref. rewrite Hs. reflexivity.
  - injection Hf as <-. eapply Forall_impl; [exact Hq|]. intros u.
    apply owned_same_ref. destruct (owner u); reflexivity.
  - injection Hf as <-. eapply Forall_impl; [exact Hq|]. intros u.
    apply owned_same_ref. destruct (owner u), o as [[r alt]|err]; reflexivity.
  - injection Hf as <-. eapply Forall_impl; [exact Hq|]. intros u.
    apply owned_same_ref. destruct (owner u); reflexivity.
  - injection Hf as <-. eapply Forall_impl; [exact Hq|]. intros u.
    apply owned_same_ref. destruct (owner u); reflexivity.
  - destruct (rendered p b W); [|discriminate]. injection Hf as <-.
    destruct b.
    + rewrite click_synth. cbn [voiceEffect].
      pose proof (click_voice p Play W) as Hv. cbn [voiceEffect] in Hv.
      pose proof (click_other p) as Ho.
      unfold Voice.play in *.
      destruct (negb (Voice.speechSupported (voiceOf p W))
                || negb (Voice.hasText (spokenOf p W))) eqn:E;
        cbn [fst snd] in *.
      * eapply Forall_impl; [exact Hq|]. intros u. apply owned_same_ref.
        destruct (panel_eq_dec p (owner u)) as [<- | Hne].
        -- rewrite Hv. reflexivity.
        -- rewrite (Ho (owner u) Play W Hne). reflexivity.
      * apply orb_false_iff in E as [_ Ht]. apply negb_false_iff in Ht.
        constructor; [|constructor]. split.
        -- apply hasText_default, Ht.
        -- cbn [owner]. rewrite Hv. reflexivity.
    + rewrite click_synth.
      destruct (voiceEffect_queue_kept p Pause W) as [-> | ->];
        [congruence | | constructor].
      eapply Forall_impl; [exact Hq|]. intros u. apply owned_same_ref.
      apply click_ref. congruence.
    + rewrite click_synth.
      destruct (voiceEffect_queue_kept p Resume W) as [-> | ->];
        [congruence | | constructor].
      eapply Forall_impl; [exact Hq|]. intros u. apply owned_same_ref.
      apply click_ref. congruence.
    + rewrite click_synth.
      destruct (voiceEffect_queue_kept p Stop W) as [-> | ->];
        [congruence | | constructor].
      eapply Forall_impl; [exact Hq|]. intros u. apply owned_same_ref.
      apply click_ref. congruence.
    + rewrite click_synth.
      destruct (voiceEffect_queue_kept p StartOver W) as [-> | ->];
        [congruence | | constructor].
      eapply Forall_impl; [exact Hq|]. intros u. apply owned_same_ref.
      apply click_ref. congruence.
  - destruct (inWindow W); [|discriminate].
    destruct (begin (synth W)) as [w'|] eqn:E; [|discriminate].
    injection Hf as <-. cbn [synth setSynth].
    rewrite (begin_queue _ _ E).
    eapply Forall_impl; [exact Hq|]. intros u. apply owned_same_ref.
    destruct (owner u); reflexivity.
  - destruct (inWindow W); [|discriminate].
    destruct (finish (synth W)) as [w'|] eqn:E; [|discriminate].
    injection Hf as <-. cbn [synth setSynth].
    destruct (finish_tail _ _ E) as [u0 Hu0]. rewrite Hu0 in Hq.
    apply Forall_cons in Hq as [_ Hq].
    eapply Forall_impl; [exact Hq|]. intros u. apply owned_same_ref.
    destruct (owner u); reflexivity.
  - destruct (Voice.speechRef (voiceOf p W)) as [held|]; [|discriminate].
    injection Hf as <-. rewrite setVoiceOf_synth.
    eapply Forall_impl; [exact Hq|]. intros u. apply owned_same_ref.
    apply setVoiceOf_ref. destruct c; reflexivity.
Qed.

(** X15: in every state the page reaches, each utterance in the browser's queue
    has a non-empty text and is the one its panel's [speechRef] holds; so
    closing a panel, whose cleanup cancels when [speechRef] is set, leaves
    no utterance of that panel in the queue. *)
Theorem queued_utterances_owned
    (inWindow : bool) (defaultType : ImageDescribe.DescribeType)
    (es : list Event) (W : World) :
  run es (initial inWindow defaultType) = Some W ->
  Forall (owned W) (queue (synth W))
  /\ forall p defaultType',
       Forall (fun u => owner u <> p)
         (queue (synth (close p defaultType' W))).
Proof.
  intros Hrun.
  assert (Hown : Forall (owned W) (queue (synth W))).
  { apply (run_invariant (fun W => Forall (owned W) (queue (synth W)))
             fire_owned es _ W Hrun).
    constructor. }
  split; [exact Hown|]. intros p dt. rewrite close_synth.
  unfold Voice.cleanup.
  destruct (Voice.speechRef (voiceOf p W)) as [held|] eqn:Er; [constructor|].
  eapply Forall_impl; [exact Hown|]. intros u [_ Href] Hp.
  rewrite Hp in Href. congruence.
Qed.





End PageFacts.

Lemma queued_utterances_owned_witness :
  Forall (PageConditions.owned App.pausedWorld)
    (SpeechSynthesis.queue (App.synth App.pausedWorld)).
Proof.
  apply (queued_utterances_owned true ImageDescribe.product
           App.sampleSession App.pausedWorld).
  reflexivity.
Defined.


(** ** What the highlighter marks *)

Section MarkFacts.

Import Highlighting.

Variable Canonicalize : N -> N.

Lemma foldedPrefix_nil_none (term : jsstring) :
  term <> [] -> foldedPrefix Canonicalize term [] = None.
Proof. destruct term; [congruence | reflexivity]. Qed.

Lemma foldedPrefix_take_none (term s : jsstring) (n : nat) :
  foldedPrefix Canonicalize term s = None ->
  term <> [] ->
  foldedPrefix Canonicalize term (take n s) = None.
Proof.
  revert s n. induction term as [|ch term IH]; intros s n H Hne;
    [congruence|].
  destruct s as [|d s]; [destruct n; reflexivity|].
  destruct n as [|n]; [reflexivity|]. cbn [take foldedPrefix] in *.
  destruct (N.eqb (Canonicalize ch) (Canonicalize d)); [|reflexivity].
  destruct term as [|ch' term]; [discriminate|].
  apply IH; [exact H | discriminate].
Qed.

Lemma foldedPrefix_exact (term s rest : jsstring) :
  foldedPrefix Canonicalize term s = Some rest ->
  foldedPrefix Canonicalize term (take (length term) s) = Some [].
Proof.
  revert s. induction term as [|ch term IH]; intros s H.
  - reflexivity.
  - destruct s as [|d s]; [discriminate|]. cbn [length take foldedPrefix] in *.
    destruct (N.eqb (Canonicalize ch) (Canonicalize d)); [|discriminate].
    apply IH, H.
Qed.

Lemma occurs_take (term s : jsstring) (n : nat) :
  term <> [] ->
  (forall i, i < n -> foldedPrefix Canonicalize term (drop i s) = None) ->
  occurs Canonicalize term (take n s) = false.
Proof.
  intros Hne. revert s. induction n as [|n IH]; intros s H.
  - rewrite take_0. cbn [occurs]. rewrite (foldedPrefix_nil_none term Hne).
    reflexivity.
  - destruct s as [|d s].
    + rewrite take_nil. cbn [occurs].
      rewrite (foldedPrefix_nil_none term Hne). reflexivity.
    + assert (H0 : foldedPrefix Canonicalize term (take (S n) (d :: s))
                   = None).
      { apply foldedPrefix_take_none; [|exact Hne]. apply (H 0). lia. }
      rewrite firstn_cons in H0 |- *. cbn [occurs]. rewrite H0.
      apply IH. intros i Hi. apply (H (S i)). lia.
Qed.

Lemma occurs_substring (term S : jsstring) (p q : nat) :
  term <> [] ->
  (forall i, p <= i -> i < q ->
             foldedPrefix Canonicalize term (drop i S) = None) ->
  occurs Canonicalize term (substring S p q) = false.
Proof.
  intros Hne H. unfold substring. apply occurs_take; [exact Hne|].
  intros i Hi. rewrite drop_drop. apply H; lia.
Qed.

Lemma occurs_drop (term s : jsstring) (n : nat) :
  occurs Canonicalize term s = false ->
  occurs Canonicalize term (drop n s) = false.
Proof.
  revert s. induction n as [|n IH]; intros s H; [exact H|].
  destruct s as [|d s]; [exact H|]. cbn [drop]. apply IH.
  cbn [occurs] in H. apply orb_false_iff in H as [_ H]. exact H.
Qed.

Lemma search_none (term s : jsstring) (sticky : bool) (li i : nat) :
  occurs Canonicalize term s = false ->
  search Canonicalize
    (RegExp.mk (Group 1 (seqOf (List.map Char term))) 1 true true sticky li)
    i s = None.
Proof.
  revert i. induction s as [|d s IH]; intros i H; cbn [search];
    rewrite matchAt_plain; cbn [occurs] in H;
    apply orb_false_iff in H as [H1 H2];
    destruct (foldedPrefix Canonicalize term _) as [rest|];
    try discriminate; [reflexivity | apply IH, H2].
Qed.

(** Testing a part in which the term does not occur: no mark, and
    [lastIndex] goes back to zero. *)
Lemma test_gap (term gap : jsstring) (li : nat) :
  occurs Canonicalize term gap = false ->
  test Canonicalize
    (RegExp.mk (Group 1 (seqOf (List.map Char term))) 1 true true false li)
    gap
  = (false,
     RegExp.mk (Group 1 (seqOf (List.map Char term))) 1 true true false 0).
Proof.
  intros H. unfold test, exec. cbn [global sticky lastIndex orb].
  destruct (Nat.ltb (length gap) li); [reflexivity|].
  rewrite (search_none term (drop li gap) false li li (occurs_drop _ _ _ H)).
  reflexivity.
Qed.

(** Testing a part that is the term up to case, from [lastIndex] zero: a
    mark, and [lastIndex] moves to the end of the part. *)
Lemma test_hit (term hit : jsstring) :
  foldedPrefix Canonicalize term hit = Some [] ->
  test Canonicalize
    (RegExp.mk (Group 1 (seqOf (List.map Char term))) 1 true true false 0)
    hit
  = (true,
     RegExp.mk (Group 1 (seqOf (List.map Char term))) 1 true true false
       (length term)).
Proof.
  intros H. unfold test, exec. cbn [global sticky lastIndex orb].
  destruct (Nat.ltb_spec (length hit) 0) as [Hbad | _]; [lia|].
  rewrite drop_0.
  destruct hit as [|d hit]; cbn [search]; rewrite matchAt_plain, H;
    reflexivity.
Qed.

(** The nodes made from the parts of the split loop. *)
Lemma mapParts_splitLoop (term S : jsstring) :
  term <> [] ->
  forall fuel p q parts li index,
    p <= q -> q <= length S ->
    (forall i, p <= i -> i < q ->
               foldedPrefix Canonicalize term (drop i S) = None) ->
    splitLoop Canonicalize
      (RegExp.mk (Group 1 (seqOf (List.map Char term))) 1 true true true 0)
      S fuel p q = Some parts ->
    Highlighted Canonicalize term index
      (mapParts Canonicalize
         (RegExp.mk (Group 1 (seqOf (List.map Char term))) 1
            true true false li) parts index).
Proof.
  intros Hne. induction fuel as [|fuel IH];
    intros p q parts li index Hpq HqS Hno H; [discriminate|].
  cbn [splitLoop] in H. destruct (Nat.ltb_spec q (length S)) as [Hlt | Hge].
  - rewrite exec_sticky in H by (reflexivity || lia).
    unfold setLastIndex in H.
    cbn [pattern nGroups global ignoreCase sticky] in H.
    rewrite matchAt_plain in H.
    destruct (foldedPrefix Canonicalize term (drop q S)) as [rest'|] eqn:E.
    + cbn [endIndex] in H.
      pose proof (foldedPrefix_length Canonicalize _ _ _ E) as Hlen.
      rewrite length_drop in Hlen.
      assert (Hterm : 0 < length term).
      { destruct term; simpl; [congruence | lia]. }
      replace (Nat.min (q + length term) (length S))
        with (q + length term)%nat in H by lia.
      destruct (Nat.eqb_spec (q + length term) p) as [Heq | _]; [lia|].
      destruct (splitLoop Canonicalize _ S fuel (q + length term)
                  (q + length term)) as [A|] eqn:EA; [|discriminate].
      injection H as <-.
      cbn [captured captures List.map option_map fst snd app mapParts
           toString].
      rewrite (test_gap term (substring S p q) li
                 (occurs_substring term S p q Hne Hno)).
      assert (Hhit : foldedPrefix Canonicalize term
                       (substring S q (q + length term)) = Some []).
      { unfold substring. replace (q + length term - q) with (length term)
          by lia.
        apply (foldedPrefix_exact term (drop q S) rest' E). }
      rewrite (test_hit term _ Hhit).
      apply highlighted_more.
      * apply (occurs_substring term S p q Hne Hno).
      * exact Hhit.
      * apply (IH (q + length term) (q + length term) A (length term)
                 (Datatypes.S (Datatypes.S index))); [lia | lia | | exact EA].
        intros i H1 H2. lia.
    + apply (IH p (Datatypes.S q) parts li index); [lia | lia | | exact H].
      intros i H1 H2. destruct (Nat.eq_dec i q) as [-> | Hiq]; [exact E|].
      apply Hno; lia.
  - injection H as <-. cbn [mapParts toString].
    assert (Hgap : occurs Canonicalize term (substring S p (length S))
                   = false).
    { apply (occurs_substring term S p (length S) Hne).
      intros i H1 H2. apply Hno; lia. }
    rewrite (test_gap term _ li Hgap). apply highlighted_last, Hgap.
Qed.

(** X17: for a search term without pattern syntax and not blank, the nodes
    returned alternate between unmarked text in which the term does not
    occur and marked text that is the term up to case: the marks are the
    occurrences of the term, and nothing else is marked. *)
Theorem highlightSearchTerm_marks_occurrences (text searchTerm : jsstring) :
  forallb plainUnit searchTerm = true ->
  truthy (trim searchTerm) = true ->
  exists nodes,
    highlightSearchTerm Canonicalize text searchTerm = Return (Nodes nodes)
    /\ Highlighted Canonicalize searchTerm 0 nodes.
Proof.
  intros Hp Ht.
  assert (Hne : searchTerm <> []).
  { intros ->. discriminate Ht. }
  unfold highlightSearchTerm. rewrite Ht. cbn [negb].
  rewrite (create_plain searchTerm Hp).
  destruct (split_total Canonicalize
              (RegExp.mk (Group 1 (seqOf (List.map Char searchTerm))) 1
                 true true false 0) text) as [parts Hparts].
  rewrite Hparts. eexists. split; [reflexivity|].
  unfold split in Hparts. cbn [pattern nGroups global ignoreCase] in Hparts.
  destruct text as [|d text].
  - unfold exec in Hparts.
    cbn [global sticky lastIndex orb length Nat.ltb Nat.leb] in Hparts.
    rewrite drop_0, matchAt_plain, (foldedPrefix_nil_none searchTerm Hne)
      in Hparts.
    injection Hparts as <-. cbn [mapParts toString].
    assert (Hgap : occurs Canonicalize searchTerm [] = false).
    { cbn [occurs]. rewrite (foldedPrefix_nil_none searchTerm Hne).
      reflexivity. }
    rewrite (test_gap searchTerm [] 0 Hgap). apply highlighted_last, Hgap.
  - apply (mapParts_splitLoop searchTerm (d :: text) Hne
             (2 * length (d :: text) + 2) 0 0 parts 0 0);
      [lia | simpl; lia | | exact Hparts].
    intros i H1 H2. lia.
Qed.

(** X18: a search term that begins with [*] or [+] makes the function throw,
    whatever follows and whatever the text; so does a term without pattern
    syntax followed by an opening parenthesis. *)
Theorem highlightSearchTerm_throws (text rest plain : jsstring) :
  forallb plainUnit plain = true ->
  highlightSearchTerm Canonicalize text (42%N :: rest) = Throw
  /\ highlightSearchTerm Canonicalize text (43%N :: rest) = Throw
  /\ highlightSearchTerm Canonicalize text (plain ++ lit "(") = Throw.
Proof.
  intros Hp.
  assert (Hkept : forall c s, isWhiteSpace c = false ->
                    truthy (trim (c :: s)) = true).
  { intros c s Hc. unfold trim. cbn [trimStart]. rewrite Hc.
    rewrite (trimEnd_cons_kept c s Hc). reflexivity. }
  split; [|split].
  - unfold highlightSearchTerm. rewrite (Hkept 42%N rest eq_refl).
    reflexivity.
  - unfold highlightSearchTerm. rewrite (Hkept 43%N rest eq_refl).
    reflexivity.
  - unfold highlightSearchTerm.
    assert (Ht : truthy (trim (plain ++ lit "(")) = true).
    { unfold trim. change (lit "(") with [40%N].
      rewrite (trimStart_app_kept plain [] 40%N eq_refl).
      unfold trimEnd. rewrite rev_app_distr. cbn [rev app trimStart].
      change (isWhiteSpace 40) with false. cbn iota. cbn [rev].
      rewrite rev_involutive. destruct (trimStart plain); reflexivity. }
    rewrite Ht. cbn [negb]. unfold create, parsePattern.
    change (lit "(" ++ (plain ++ lit "(") ++ lit ")")
      with (40%N :: (plain ++ [40%N]) ++ [41%N]).
    rewrite <- app_assoc. cbn [parseFrom N.eqb Pos.eqb].
    assert (Hq : match plain ++ [40%N] ++ [41%N] with
                 | 63%N :: _ => @Outside (Regex * nat)
                 | _ => parseFrom (plain ++ [40%N] ++ [41%N])
                          (mkFrame 1 [] [] NoTerm)
                          [mkFrame 0 [] [] NoTerm] 2
                 end
                 = parseFrom (plain ++ [40%N] ++ [41%N])
                     (mkFrame 1 [] [] NoTerm)
                     [mkFrame 0 [] [] NoTerm] 2).
    { destruct plain as [|c plain]; [reflexivity|].
      simpl in Hp. apply andb_true_iff in Hp as [Hc _].
      destruct (N.eqb_spec c 63) as [-> | Hne]; [discriminate|].
      cbn [app]. destruct c as [|p]; [reflexivity|].
      repeat (destruct p as [p|p|]; try reflexivity); congruence. }
    rewrite Hq, (parseFrom_plain plain _ _ _ _ Hp). reflexivity.
Qed.

End MarkFacts.

Lemma highlightSearchTerm_marks_occurrences_witness :
  exists nodes,
    highlightSearchTerm asciiCanonicalize (lit "Red Shirt, red tie")
      (lit "red") = Return (Nodes nodes)
    /\ Highlighting.Highlighted asciiCanonicalize (lit "red") 0 nodes.
Proof.
  apply (highlightSearchTerm_marks_occurrences asciiCanonicalize
           (lit "Red Shirt, red tie") (lit "red")); reflexivity.
Defined.

Lemma highlightSearchTerm_throws_witness :
  highlightSearchTerm asciiCanonicalize (lit "Shirt (red)") (lit "shirt (")
  = Throw.
Proof.
  apply (highlightSearchTerm_throws asciiCanonicalize (lit "Shirt (red)")
           [] (lit "shirt ")).
  reflexivity.
Defined.

(** ** More on the service wrappers *)

Lemma strictEquals_spec (a b : jsstring) : strictEquals a b = true <-> a = b.
Proof.
  revert b. induction a as [|c a IH]; intros [|d b]; simpl;
    try (split; [discriminate | discriminate]); [tauto|].
  rewrite andb_true_iff, N.eqb_eq, IH. split.
  - intros [-> ->]. reflexivity.
  - intros [= -> ->]. tauto.
Qed.

(** X19: away from [localhost] and [127.0.0.1] the base URL is the relative
    proxy ['/api'], whatever URL is configured; and on every host, with or
    without a configured URL, the base URL is not empty. *)
Theorem getApiBaseUrl_production (h : jsstring)
    (VITE_API_BASE_URL : option jsstring) :
  h <> lit "localhost" -> h <> lit "127.0.0.1" ->
  SmartSellService.getApiBaseUrl (Some h) VITE_API_BASE_URL = lit "/api"
  /\ forall hostname configured,
       truthy (SmartSellService.getApiBaseUrl hostname configured) = true.
Proof.
  intros H1 H2. split.
  - unfold SmartSellService.getApiBaseUrl.
    destruct (strictEquals h (lit "localhost")) eqn:E1.
    { apply strictEquals_spec in E1. contradiction. }
    destruct (strictEquals h (lit "127.0.0.1")) eqn:E2.
    { apply strictEquals_spec in E2. contradiction. }
    reflexivity.
  - intros hostname configured. unfold SmartSellService.getApiBaseUrl.
    assert (Hfallback :
      truthy match configured with
             | Some u => if truthy u then u
                         else lit "http://34.61.215.100:8080"
             | None => lit "http://34.61.215.100:8080"
             end = true).
    { destruct configured as [u|]; [|reflexivity].
      destruct (truthy u) eqn:E; [exact E | reflexivity]. }
    destruct hostname as [host|]; [|exact Hfallback].
    destruct (negb (strictEquals host (lit "localhost"))
              && negb (strictEquals host (lit "127.0.0.1")));
      [reflexivity | exact Hfallback].
Qed.

Lemma getApiBaseUrl_production_witness :
  SmartSellService.getApiBaseUrl (Some (lit "nero-fashion.vercel.app"))
    (Some (lit "http://10.0.0.5:8080"))
  = lit "/api".
Proof.
  apply (getApiBaseUrl_production (lit "nero-fashion.vercel.app")
           (Some (lit "http://10.0.0.5:8080"))); discriminate.
Defined.

(** X20: the form never carries an empty model name, and its stream entry is
    ['true'] or ['false']: a model name that is given and not empty is sent
    as a [USVString], an empty one is replaced by the default like an
    omitted one, and only [stream: true] gives ['true']; the text entry is
    the request's text as a [USVString]. *)
Theorem buildFormData_values (params : SmartSellService.SmartSellRequest) :
  exists modelName streamText,
    SmartSellService.buildFormData params
    = [ (lit "image",
         SmartSellService.FileValue (SmartSellService.image params));
        (lit "text",
         SmartSellService.StringValue
           (toUSVString (SmartSellService.text params)));
        (lit "model_name", SmartSellService.StringValue modelName);
        (lit "stream", SmartSellService.StringValue streamText) ]
    /\ truthy modelName = true
    /\ (forall c name,
          SmartSellService.model_name params = Some (c :: name) ->
          modelName = toUSVString (c :: name))
    /\ (SmartSellService.model_name params = Some []
        \/ SmartSellService.model_name params = None ->
        modelName = lit "gemini-1.5-pro")
    /\ (streamText = lit "true" \/ streamText = lit "false")
    /\ (streamText = lit "true"
        <-> SmartSellService.stream params = Some true).
Proof.
  eexists _, _. split; [reflexivity|]. split; [|split; [|split; [|split]]].
  - rewrite toUSVString_truthy. unfold SmartSellService.modelNameOrDefault.
    destruct (SmartSellService.model_name params) as [m|]; [|reflexivity].
    destruct (truthy m) eqn:E; [exact E | reflexivity].
  - intros c name ->. reflexivity.
  - intros [-> | ->]; reflexivity.
  - destruct (SmartSellService.stream params) as [[|]|]; auto.
  - destruct (SmartSellService.stream params) as [[|]|]; simpl;
      split; first [reflexivity | discriminate | congruence].
Qed.

Lemma buildFormData_values_witness :
  SmartSellService.buildFormData explicitRequest
  = [ (lit "image", SmartSellService.FileValue App.samplePhoto);
      (lit "text", SmartSellService.StringValue (lit "shades " ++ [65533%N]));
      (lit "model_name",
       SmartSellService.StringValue (lit "gemini-2.0-flash"));
      (lit "stream", SmartSellService.StringValue (lit "true")) ].
Proof.
  destruct (buildFormData_values explicitRequest)
    as (modelName & streamText & Hform & _ & Hname & _ & _ & Hstream).
  rewrite Hform, (Hname _ _ eq_refl), (proj2 Hstream eq_refl).
  reflexivity.
Defined.

(** X21: neither wrapper catches or alters a rejection: it rejects exactly when
    the post rejects, with the same error. *)
Theorem wrappers_pass_rejections_on (D : Type)
    (post : jsstring -> SmartSellService.FormData -> SmartSellService.Headers ->
            SmartSellService.AxiosResponse D + TransportError)
    (API_BASE_URL : jsstring) (e : TransportError) :
  (forall params,
     SmartSellService.getProductRecommendation D post API_BASE_URL params
     = inr e
     <-> post (API_BASE_URL ++ lit "/sell-product-from-query")
           (SmartSellService.buildFormData params)
           [(lit "Content-Type", lit "multipart/form-data")] = inr e)
  /\ (forall image,
        FashionService.getFashionAdvice D post API_BASE_URL image = inr e
        <-> post (API_BASE_URL ++ lit "/assistant-fashion")
              [(lit "image", SmartSellService.FileValue image)]
              [(lit "Content-Type", lit "multipart/form-data")] = inr e).
Proof.
  split.
  - intros params. unfold SmartSellService.getProductRecommendation.
    destruct (post _ _ _) as [response|e']; split; congruence.
  - intros image. unfold FashionService.getFashionAdvice.
    change (SmartSellService.append (lit "image")
              (SmartSellService.FileValue image) [])
      with [(lit "image", SmartSellService.FileValue image)].
    destruct (post _ _ _) as [response|e']; split; congruence.
Qed.
